(** * libflexkube: a shallow embedding of the container and etcd cluster code

    The Go sources embedded here are
    - [pkg/helm/release/release.go]   ([retryOnEtcdError]),
    - the [main] package of the control plane example ([readYamlFile]),
    - [pkg/container/container.go]    ([Container] and its instance helpers),
    - [pkg/etcd/cluster.go]           ([Cluster.propagateMember], [cluster.Deploy]),
    - the Docker runtime ([pkg/container/runtime/docker]), as its tests
      specify it.

    Conventions.  A Go [error] value is an [option error] ([None] is [nil]); a
    Go function returning [(T, error)] returns a [result T].  Calls that leave
    the process (runtime daemon, etcd) are state transformers; whatever the
    outside world answers is an oracle handed to the function, so that a
    theorem holds for every possible answer.  Iteration over a Go map has an
    unspecified order: every loop over a map takes a [seed] and walks the
    entries in the order [shuffle seed] gives them. *)

From Stdlib Require Import Ascii String List Bool Arith Lia.
From stdpp Require Import base option list strings gmap fin_maps sorting.

(** ** Go errors *)

Module errors.

(** [errorString] is what [fmt.Errorf] builds without a [%w] verb; [wrapError]
    is [fmt.Errorf (prefix ++ "%w") err]. *)
Inductive error : Type :=
| errorString (msg : string)
| wrapError (prefix : string) (err : error).

(** [err.Error()] *)
Fixpoint Error (e : error) : string :=
  match e with
  | errorString msg => msg
  | wrapError prefix err => prefix +:+ Error err
  end.

(** [errors.Unwrap] *)
Definition Unwrap (e : error) : option error :=
  match e with
  | errorString _ => None
  | wrapError _ err => Some err
  end.

(** [errors.Is e target] for comparable errors: [target] is on the chain of [e]. *)
Fixpoint Is (e target : error) : Prop :=
  e = target \/
  match e with
  | errorString _ => False
  | wrapError _ err => Is err target
  end.

(** [fmt.Errorf (prefix ++ "%w") err] *)
Definition Errorf_w (prefix : string) (err : error) : error := wrapError prefix err.

(** A Go result [(T, error)]. *)
Inductive result (T : Type) : Type :=
| Ok (v : T)
| Err (e : error).

Arguments Ok {T} v.
Arguments Err {T} e.

End errors.

Export errors.

(** ** The [strings] and [sort] packages *)

Module strings.

(** [strings.HasPrefix s prefix] *)
Fixpoint HasPrefix (s prefix : string) {struct prefix} : bool :=
  match prefix, s with
  | EmptyString, _ => true
  | String _ _, EmptyString => false
  | String a p, String b s' => if Ascii.eqb a b then HasPrefix s' p else false
  end.

(** [strings.Contains s substr] *)
Fixpoint Contains (s substr : string) : bool :=
  HasPrefix s substr ||
  match s with
  | EmptyString => false
  | String _ s' => Contains s' substr
  end.

(** [strings.Join elems sep] *)
Fixpoint Join (elems : list string) (sep : string) : string :=
  match elems with
  | [] => ""
  | [x] => x
  | x :: rest => x +:+ sep +:+ Join rest sep
  end.

(** [sort.Strings]: the slice in increasing byte-wise order.  Strings that
    compare equal are identical, so the result does not depend on the sorting
    algorithm. *)
Definition Strings (a : list string) : list string := merge_sort String.le a.

End strings.

(** ** Helm releases: [pkg/helm/release/release.go] *)

Module release.

Section retry.

(** [f] is a Go closure [func() error]: it may change the world [W] each time
    it is called. *)
Context {W : Type}.
Variable f : W -> option error * W.

(** The body of [for i := 0; i < 3; i++], with [n] iterations left and [err]
    the variable declared before the loop. *)
Fixpoint retryLoop (n : nat) (err : option error) (w : W) : option error * W :=
  match n with
  | 0 => (err, w)
  | S n' =>
      let '(err, w) := f w in
      match err with
      | None => (None, w)
      | Some e =>
          if strings.Contains (Error e) "etcdserver:"
          then retryLoop n' (Some e) w
          else (Some e, w)
      end
  end.

Definition retryOnEtcdError (w : W) : option error * W := retryLoop 3 None w.

End retry.

(** Instrumentation: [counting f] behaves as [f] and counts its invocations. *)
Definition counting {W : Type} (f : W -> option error * W)
  : nat * W -> option error * (nat * W) :=
  fun '(k, w) => let '(r, w') := f w in (r, (S k, w')).

(** The world after [k] calls of [f], and the answer of the call made in it. *)
Fixpoint after {W : Type} (f : W -> option error * W) (k : nat) (w : W) : W :=
  match k with
  | 0 => w
  | S k' => snd (f (after f k' w))
  end.

Definition answer {W : Type} (f : W -> option error * W) (k : nat) (w : W)
  : option error :=
  fst (f (after f k w)).

Definition etcdError (r : option error) : bool :=
  match r with
  | Some e => strings.Contains (Error e) "etcdserver:"
  | None => false
  end.

End release.

(** ** The parts of [os] and [io/ioutil] that [readYamlFile] calls *)

Module os.

(** [os.ErrNotExist] *)
Definition ErrNotExist : error := errorString "file does not exist".

(** A file on disk is either readable, with its bytes, or there but not
    readable (a directory, a permission problem), with the error of the read.
    A path that is not a key of the map does not exist. *)
Definition FileSystem : Type := gmap string (result (list Byte.byte)).

Fixpoint error_eqb (a b : error) : bool :=
  match a, b with
  | errorString x, errorString y => String.eqb x y
  | wrapError p x, wrapError q y => String.eqb p q && error_eqb x y
  | _, _ => false
  end.

(** [&PathError{Op: op, Path: path, Err: err}] *)
Definition PathError (op path : string) (err : error) : error :=
  wrapError (op +:+ " " +:+ path +:+ ": ") err.

(** [os.IsNotExist]: false on [nil]; looks through one [PathError]. *)
Definition IsNotExist (err : option error) : bool :=
  match err with
  | None => false
  | Some (wrapError _ inner) => error_eqb inner ErrNotExist
  | Some e => error_eqb e ErrNotExist
  end.

(** [os.Stat], keeping only the error. *)
Definition Stat (fs : FileSystem) (file : string) : option error :=
  match fs !! file with
  | None => Some (PathError "stat" file ErrNotExist)
  | Some _ => None
  end.

(** [ioutil.ReadFile] *)
Definition ReadFile (fs : FileSystem) (file : string) : result (list Byte.byte) :=
  match fs !! file with
  | None => Err (PathError "open" file ErrNotExist)
  | Some r => r
  end.

End os.

(** ** The control plane example: package [main] *)

Module main.

(** The Go literal for an empty YAML document: an opening brace, a closing
    brace and a line feed. *)
Definition emptyYAML : string := "{}" +:+ String (ascii_of_nat 10) EmptyString.

Definition readYamlFile (fs : os.FileSystem) (file : string)
  : result (list Byte.byte) :=
  if os.IsNotExist (os.Stat fs file) then Ok (list_byte_of_string "")
  else
    match os.ReadFile fs file with
    | Err err => Err err
    | Ok c =>
        (* Workaround for empty YAML file *)
        if String.eqb (string_of_list_byte c) emptyYAML then Ok []
        else Ok c
    end.

(** What [main] hands to [controlplane.FromYaml]:
    [[]byte(string(s) + string(config))]. *)
Definition mergedDocument (s config : list Byte.byte) : list Byte.byte :=
  list_byte_of_string (string_of_list_byte s +:+ string_of_list_byte config).

End main.

(** ** Outcomes of effectful code

    A computation over a world [W] either returns a value or panics (a call
    through a nil interface, a nil pointer dereference); either way the world
    it leaves behind is known. *)

Module run.

Inductive outcome (T : Type) : Type :=
| Return (v : T)
| Panic.

Arguments Return {T} v.
Arguments Panic {T}.

Definition Run (W T : Type) : Type := W -> outcome T * W.

Definition ret {W T : Type} (v : T) : Run W T := fun w => (Return v, w).

Definition panic {W T : Type} : Run W T := fun w => (Panic, w).

Definition bind {W A B : Type} (m : Run W A) (k : A -> Run W B) : Run W B :=
  fun w =>
    match m w with
    | (Return a, w') => k a w'
    | (Panic, w') => (Panic, w')
    end.

(** [defer d] before [body]: [d] runs when [body] is over, also when it
    panicked, and the outcome is the one of [body]. *)
Definition defer {W A B : Type} (d : Run W B) (body : Run W A) : Run W A :=
  fun w =>
    let '(r, w') := body w in
    (r, snd (d w')).

(** One call to the outside: the call is appended to the history, and the
    answer is the one the oracle gives for the history so far. *)
Definition invoke {E T : Type} (answer : list E -> T) (e : E) : Run (list E) T :=
  fun w => (Return (answer w), w ++ [e]).

End run.

Export run.

Notation "'let*' x := m 'in' k" := (bind m (fun x => k))
  (at level 10, x name, m at level 200, k at level 200).

(** ** Container types: [pkg/container/types] *)

Module types.

Module PortMap.
Record t : Type := mk { IP : string; Port : Z; Protocol : string }.
End PortMap.

Module Mount.
Record t : Type := mk { Source : string; Target : string }.
End Mount.

Module ContainerConfig.
Record t : Type := mk {
  Name : string;
  Image : string;
  Args : list string;
  Entrypoint : list string;
  Ports : list PortMap.t;
  Mounts : list Mount.t
}.
End ContainerConfig.

Module ContainerStatus.
Record t : Type := mk {
  Image : string;
  ID : string;
  Name : string;
  Status : string
}.
End ContainerStatus.

(** [types.File], as the Docker runtime tests build it. *)
Module File.
Record t : Type := mk {
  Path : string;
  Content : string;
  Mode : Z;
  User : string;
  Group : string
}.
End File.

End types.

(** ** The runtime interface: [pkg/container/runtime]

    [container.go] reaches the daemon only through the methods of
    [runtime.Runtime].  A [Runtime] value is the daemon seen through one
    client: for each method, the answer it gives after a history of calls. *)

Module runtime.

Import types.

Inductive call : Type :=
| CallCreate (config : ContainerConfig.t)
| CallStatus (id : string)
| CallRead (id srcPath : string)
| CallCopy (id dstPath : string) (content : list Byte.byte)
| CallStat (id path : string)
| CallStart (id : string)
| CallStop (id : string)
| CallDelete (id : string).

Definition World : Type := list call.

Record Runtime : Type := {
  Create : World -> ContainerConfig.t -> result string;
  Status : World -> string -> result (option ContainerStatus.t);
  Read : World -> string -> string -> result (list Byte.byte);
  Copy : World -> string -> string -> list Byte.byte -> option error;
  Stat : World -> string -> string -> result (option Z);
  Start : World -> string -> option error;
  Stop : World -> string -> option error;
  Delete : World -> string -> option error
}.

End runtime.

(** [docker.Config], the one runtime configuration [Container] accepts. *)
Module docker_config.
Record Config : Type := { Host : string }.
End docker_config.

(** ** Containers: [pkg/container/container.go]

    Methods carry their receiver type in front of their name:
    [Container_Delete] is the method [Delete] of [Container],
    [containerInstance_Delete] the one of [containerInstance].  A method with a pointer receiver that
    assigns to a field returns the updated struct. *)

Module container.

Import types.

Record RuntimeConfig : Type := { Docker : option docker_config.Config }.

Record Container : Type := {
  Config : ContainerConfig.t;
  Status : option ContainerStatus.t;
  Runtime : RuntimeConfig
}.

(** [runtime] is [nil] until [selectRuntime] has run. *)
Record base : Type := {
  config : ContainerConfig.t;
  runtime : option runtime.Runtime;
  runtimeConfig : option docker_config.Config
}.

Record container : Type := {
  container_base : base;
  container_status : option ContainerStatus.t
}.

Record containerInstance : Type := {
  instance_base : base;
  instance_status : ContainerStatus.t
}.

Definition World : Type := runtime.World.

(** [fmt.Sprintf] of a [*types.ContainerStatus] under the verb [%+v]. *)
Definition formatStatus (s : ContainerStatus.t) : string :=
  "&{Image:" +:+ ContainerStatus.Image s +:+ " ID:" +:+ ContainerStatus.ID s
  +:+ " Name:" +:+ ContainerStatus.Name s
  +:+ " Status:" +:+ ContainerStatus.Status s +:+ "}".

Definition Container_Validate (c : Container) : option error :=
  if String.eqb (ContainerConfig.Name (Config c)) "" then
    Some (errorString "name must be set")
  else if String.eqb (ContainerConfig.Image (Config c)) "" then
    Some (errorString "image must be set")
  else
    match Docker (Runtime c) with
    | None => Some (errorString "docker runtime must be set")
    | Some _ => None
    end.

(** The three checks of [Validate]. *)
Definition invalid (c : Container) : Prop :=
  ContainerConfig.Name (Config c) = EmptyString \/
  ContainerConfig.Image (Config c) = EmptyString \/
  Docker (Runtime c) = None.

(** A container without status, or whose status has no id. *)
Definition noInstance (c : Container) : Prop :=
  match Status c with
  | None => True
  | Some s => ContainerStatus.ID s = EmptyString
  end.

Section WithRuntimeConfig.

(** The method [New] of [docker.Config], of the Docker runtime package: it builds the
    client and calls no method of [runtime.Runtime]. *)
Variable dockerNew : option docker_config.Config -> result runtime.Runtime.

Definition container_selectRuntime (c : container) : option error * container :=
  match dockerNew (runtimeConfig (container_base c)) with
  | Err err => (Some (Errorf_w "selecting container runtime failed: " err), c)
  | Ok r =>
      (None,
       {| container_base :=
            {| config := config (container_base c);
               runtime := Some r;
               runtimeConfig := runtimeConfig (container_base c) |};
          container_status := container_status c |})
  end.

Definition New (c : Container) : result container :=
  match Container_Validate c with
  | Some err => Err (Errorf_w "container configuration validation failed: " err)
  | None =>
      let nc :=
        {| container_base :=
             {| config := Config c;
                runtime := None;
                runtimeConfig := Docker (Runtime c) |};
           container_status := Status c |} in
      match container_selectRuntime nc with
      | (Some err, _) => Err (Errorf_w "unable to determine container runtime: " err)
      | (None, nc) => Ok nc
      end
  end.

Definition container_FromStatus (c : container) : result containerInstance :=
  match container_status c with
  | None => Err (errorString "can't create container instance from empty status")
  | Some status =>
      if String.eqb (ContainerStatus.ID status) "" then
        Err (errorString
               ("can't create container instance from status without id: "
                +:+ formatStatus status))
      else
        Ok {| instance_base := container_base c; instance_status := status |}
  end.

Definition Container_ToInstance (c : Container) : result containerInstance :=
  match New c with
  | Err err => Err err
  | Ok container => container_FromStatus container
  end.

(** A call through the [runtime] field; through [nil] it panics. *)
Definition viaRuntime {T : Type} (b : base)
    (answer : runtime.Runtime -> World -> T) (e : runtime.call) : Run World T :=
  match runtime b with
  | Some r => invoke (answer r) e
  | None => panic
  end.

Definition container_Create (c : container) : Run World (result containerInstance) :=
  let* r := viaRuntime (container_base c)
              (fun r w => runtime.Create r w (config (container_base c)))
              (runtime.CallCreate (config (container_base c))) in
  match r with
  | Err err => ret (Err (Errorf_w "creating container failed: " err))
  | Ok id =>
      ret (Ok {| instance_base :=
                   {| config := config (container_base c);
                      runtime := runtime (container_base c);
                      runtimeConfig := runtimeConfig (container_base c) |};
                 instance_status :=
                   ContainerStatus.mk EmptyString id EmptyString EmptyString |})
  end.

Definition instanceID (c : containerInstance) : string :=
  ContainerStatus.ID (instance_status c).

Definition containerInstance_Status (c : containerInstance)
  : Run World (result (option ContainerStatus.t)) :=
  let* r := viaRuntime (instance_base c)
              (fun r w => runtime.Status r w (instanceID c))
              (runtime.CallStatus (instanceID c)) in
  match r with
  | Err err =>
      ret (Err (Errorf_w
                  ("getting status for container '"
                   +:+ ContainerConfig.Name (config (instance_base c))
                   +:+ "' failed: ") err))
  | Ok status => ret (Ok status)
  end.

Definition containerInstance_updateStatus (c : containerInstance)
    (container : Container) : Run World (option error * Container) :=
  let* r := containerInstance_Status c in
  match r with
  | Err err => ret (Some err, container)
  | Ok s =>
      ret (None,
           {| Config := Config container; Status := s; Runtime := Runtime container |})
  end.

Definition containerInstance_Read (c : containerInstance) (srcPath : string)
  : Run World (result (list Byte.byte)) :=
  viaRuntime (instance_base c)
    (fun r w => runtime.Read r w (instanceID c) srcPath)
    (runtime.CallRead (instanceID c) srcPath).

Definition containerInstance_Copy (c : containerInstance) (dstPath : string)
    (content : list Byte.byte) : Run World (option error) :=
  viaRuntime (instance_base c)
    (fun r w => runtime.Copy r w (instanceID c) dstPath content)
    (runtime.CallCopy (instanceID c) dstPath content).

Definition containerInstance_Stat (c : containerInstance) (path : string)
  : Run World (result (option Z)) :=
  viaRuntime (instance_base c)
    (fun r w => runtime.Stat r w (instanceID c) path)
    (runtime.CallStat (instanceID c) path).

Definition containerInstance_Start (c : containerInstance) : Run World (option error) :=
  viaRuntime (instance_base c)
    (fun r w => runtime.Start r w (instanceID c))
    (runtime.CallStart (instanceID c)).

Definition containerInstance_Stop (c : containerInstance) : Run World (option error) :=
  viaRuntime (instance_base c)
    (fun r w => runtime.Stop r w (instanceID c))
    (runtime.CallStop (instanceID c)).

Definition containerInstance_Delete (c : containerInstance) : Run World (option error) :=
  viaRuntime (instance_base c)
    (fun r w => runtime.Delete r w (instanceID c))
    (runtime.CallDelete (instanceID c)).

Definition Container_UpdateStatus (c : Container) : Run World (option error * Container) :=
  match Container_ToInstance c with
  | Err err => ret (Some err, c)
  | Ok ci => containerInstance_updateStatus ci c
  end.

Definition Container_Start (c : Container) : Run World (option error * Container) :=
  match Container_ToInstance c with
  | Err err => ret (Some err, c)
  | Ok ci =>
      let* err := containerInstance_Start ci in
      match err with
      | Some err => ret (Some err, c)
      | None => containerInstance_updateStatus ci c
      end
  end.

Definition Container_Stop (c : Container) : Run World (option error * Container) :=
  match Container_ToInstance c with
  | Err err => ret (Some err, c)
  | Ok ci =>
      let* err := containerInstance_Stop ci in
      match err with
      | Some err => ret (Some err, c)
      | None => containerInstance_updateStatus ci c
      end
  end.

Definition Container_Create (c : Container) : Run World (option error * Container) :=
  match New c with
  | Err err => ret (Some err, c)
  | Ok nc =>
      let* r := container_Create nc in
      match r with
      | Err err => ret (Some err, c)
      | Ok ci => containerInstance_updateStatus ci c
      end
  end.

Definition Container_Delete (c : Container) : Run World (option error * Container) :=
  match Container_ToInstance c with
  | Err err => ret (Some err, c)
  | Ok ci =>
      let* err := containerInstance_Delete ci in
      match err with
      | Some err => ret (Some err, c)
      | None =>
          ret (None, {| Config := Config c; Status := None; Runtime := Runtime c |})
      end
  end.

Definition Container_Read (c : Container) (srcPath : string)
  : Run World (result (list Byte.byte)) :=
  match Container_ToInstance c with
  | Err err => ret (Err err)
  | Ok ci => containerInstance_Read ci srcPath
  end.

Definition Container_Copy (c : Container) (dstPath : string)
    (content : list Byte.byte) : Run World (option error) :=
  match Container_ToInstance c with
  | Err err => ret (Some err)
  | Ok ci => containerInstance_Copy ci dstPath content
  end.

Definition Container_Stat (c : Container) (path : string)
  : Run World (result (option Z)) :=
  match Container_ToInstance c with
  | Err err => ret (Err err)
  | Ok ci => containerInstance_Stat ci path
  end.

End WithRuntimeConfig.

End container.

(** ** The Docker runtime: [pkg/container/runtime/docker]

    The tests of this package state what [sanitizeImageName] and [Read] do;
    the definitions below follow the specification and those tests. *)

Module docker.

Import types.

(** *** Image references

    A reference to an image is written [name[:tag][@digest]].  The name is a
    path whose components are separated by slashes; its first component may
    be a registry host with a port, as in [localhost:5000/foo].  A tag is made
    of letters, digits, underscores, periods and dashes, does not start with a
    period or a dash and has at most 128 characters.  A digest is written
    [algorithm:hex]. *)

Definition between (lo hi a : ascii) : bool :=
  (nat_of_ascii lo <=? nat_of_ascii a) && (nat_of_ascii a <=? nat_of_ascii hi).

Definition isDigit (a : ascii) : bool := between "0" "9" a.

Definition isLetter (a : ascii) : bool := between "a" "z" a || between "A" "Z" a.

Definition isWordChar (a : ascii) : bool :=
  isLetter a || isDigit a || Ascii.eqb a "_".

Definition isTagChar (a : ascii) : bool :=
  isWordChar a || Ascii.eqb a "." || Ascii.eqb a "-".

Definition isHexDigit (a : ascii) : bool :=
  isDigit a || between "a" "f" a || between "A" "F" a.

Definition isAlgorithmChar (a : ascii) : bool :=
  isTagChar a || Ascii.eqb a "+".

Fixpoint all (p : ascii -> bool) (s : string) : bool :=
  match s with
  | EmptyString => true
  | String a s' => p a && all p s'
  end.

Definition nonEmpty (s : string) : bool :=
  match s with
  | EmptyString => false
  | String _ _ => true
  end.

(** [s] cut at the last occurrence of [c]: what is before it and what is
    after it. *)
Fixpoint cutLast (c : ascii) (s : string) : option (string * string) :=
  match s with
  | EmptyString => None
  | String a s' =>
      match cutLast c s' with
      | Some (before, after) => Some (String a before, after)
      | None => if Ascii.eqb a c then Some (EmptyString, s') else None
      end
  end.

Definition isTag (t : string) : bool :=
  match t with
  | EmptyString => false
  | String a rest =>
      isWordChar a && all isTagChar rest && (String.length t <=? 128)
  end.

Definition isDigest (d : string) : bool :=
  match cutLast ":" d with
  | Some (algorithm, hex) =>
      (nonEmpty hex && all isHexDigit hex) &&
      (nonEmpty algorithm && all isAlgorithmChar algorithm)
  | None => false
  end.

(** The tag of [name[:tag]]: what follows the last colon, when that is a tag.
    What follows the colon of a port is no tag: it runs over a slash. *)
Definition nameTag (s : string) : option string :=
  match cutLast ":" s with
  | Some (_, t) => if isTag t then Some t else None
  | None => None
  end.

(** The tag a reference carries, if it carries one.  A digest at the end of
    the reference is set aside first: its colon introduces no tag. *)
Definition referenceTag (image : string) : option string :=
  match cutLast "@" image with
  | Some (name, d) => if isDigest d then nameTag name else nameTag image
  | None => nameTag image
  end.

(** Modelled from the spec: [sanitizeImageName] of the Docker runtime, of
    which only the tests [TestSanitizeImageName] and
    [TestSanitizeImageNameWithTag] are there.  An image name without a tag is
    normalized to the tag [latest]; a reference that carries a tag is left as
    it is. *)
Definition sanitizeImageName (image : string) : string :=
  match referenceTag image with
  | Some _ => image
  | None => image +:+ ":latest"
  end.

(** What the daemon answers when asked for the archive of one path. *)
Inductive reply : Type :=
| Absent
| Failed (err : error)
| Stream (content : list Byte.byte).

Definition withPath (p : string) (f : File.t) : File.t :=
  File.mk p (File.Content f) (File.Mode f) (File.User f) (File.Group f).

Section Read.

(** The daemon, and the TAR decoder [tarToFiles]: one [File] per regular
    entry, or an error when the stream is not a TAR archive. *)
Variable CopyFromContainer : string -> string -> reply.
Variable tarToFiles : list Byte.byte -> result (list File.t).

(** Modelled from the spec: the loop of [Read] of the Docker runtime over the
    paths asked for, [files] being the files gathered so far.  A path that is
    absent is omitted and is no error; a runtime error and a stream that is
    not a TAR archive (the tests [TestReadRuntimeError] and
    [TestReadVerifyTarArchive]) stop the read. *)
Fixpoint readPaths (id : string) (srcPaths : list string) (files : list File.t)
  : result (list File.t) :=
  match srcPaths with
  | [] => Ok files
  | p :: rest =>
      match CopyFromContainer id p with
      | Failed err => Err (Errorf_w "copying from container: " err)
      | Absent => readPaths id rest files
      | Stream content =>
          match tarToFiles content with
          | Err err =>
              Err (Errorf_w ("extracting file " +:+ p +:+ " from archive: ") err)
          | Ok fs => readPaths id rest (files ++ map (withPath p) fs)
          end
      end
  end.

(** Modelled from the spec: [Read] of the Docker runtime, from a container id
    and a list of absolute paths to the list of files found. *)
Definition Read (id : string) (srcPaths : list string) : result (list File.t) :=
  readPaths id srcPaths [].

(** The files one path contributes to a read that succeeds. *)
Definition filesAt (id p : string) : list File.t :=
  match CopyFromContainer id p with
  | Stream content =>
      match tarToFiles content with
      | Ok fs => map (withPath p) fs
      | Err _ => []
      end
  | _ => []
  end.

(** The path stops the read: runtime error, or a stream that is no archive. *)
Definition stopsRead (id p : string) : Prop :=
  match CopyFromContainer id p with
  | Failed _ => True
  | Stream content =>
      match tarToFiles content with
      | Err _ => True
      | Ok _ => False
      end
  | Absent => False
  end.

End Read.

End docker.

(** ** Iteration over Go maps

    [for k, v := range m] visits every entry once, in an order that is not
    specified.  [shuffle seed l] inserts each element of [l] at the position
    its seed digit names; every order of [l] is [shuffle seed l] for some
    [seed] (see [shuffle_complete]). *)

Module gomap.

Fixpoint insertAt {A : Type} (n : nat) (x : A) (l : list A) : list A :=
  match n, l with
  | S n', y :: l' => y :: insertAt n' x l'
  | _, _ => x :: l
  end.

Fixpoint shuffle {A : Type} (seed : list nat) (l : list A) : list A :=
  match l with
  | [] => []
  | x :: l' =>
      match seed with
      | [] => x :: shuffle [] l'
      | n :: seed' => insertAt n x (shuffle seed' l')
      end
  end.

Definition range {V : Type} (seed : list nat) (m : gmap string V)
  : list (string * V) :=
  shuffle seed (map_to_list m).

End gomap.

(** ** [internal/util] *)

Module util.

(** Modelled from the spec: [util.PickString], the merge helper that picks the
    first non-empty string of a short ordered list (the empty string when
    there is none). *)
Fixpoint PickString (values : list string) : string :=
  match values with
  | [] => EmptyString
  | v :: rest => if String.eqb v EmptyString then PickString rest else v
  end.

End util.

(** ** etcd clusters: [pkg/etcd/cluster.go] *)

Module etcd.

(** [host.Host] with the two transports a host may select. *)
Record Host (directConfig sshConfig : Type) : Type := {
  DirectConfig : option directConfig;
  SSHConfig : option sshConfig
}.

Arguments DirectConfig {directConfig sshConfig} h.
Arguments SSHConfig {directConfig sshConfig} h.

(** The fields of [Member] that [propagateMember] reads or writes. *)
Record Member (host : Type) : Type := {
  Name : string;
  Image : string;
  Host_ : host;
  CACertificate : string;
  PeerAddress : string;
  InitialCluster : string;
  PeerCertAllowedCN : string;
  NewCluster : bool
}.

Arguments Name {host} m.
Arguments Image {host} m.
Arguments Host_ {host} m.
Arguments CACertificate {host} m.
Arguments PeerAddress {host} m.
Arguments InitialCluster {host} m.
Arguments PeerCertAllowedCN {host} m.
Arguments NewCluster {host} m.

(** The validated member: the fields [cluster.go] uses. *)
Record member : Type := { name : string; peerAddress : string }.

(** [fmt.Sprintf] with the format [etcd-%s]. *)
Definition memberName (n : string) : string := "etcd-" +:+ n.

(** [fmt.Sprintf] with the format [%s=https://%s:2380]. *)
Definition peerEntry (name address : string) : string :=
  name +:+ "=https://" +:+ address +:+ ":2380".

Section WithTypes.

Context {directConfig sshConfig HostConfiguredContainer : Type}.

Local Abbreviation host := (Host directConfig sshConfig).
Local Abbreviation ContainersState := (gmap string HostConfiguredContainer).

(** [host.BuildConfig], of the host package. *)
Variable BuildConfig : host -> host -> host.

Record Cluster : Type := {
  Cluster_Image : string;
  SSH : option sshConfig;
  Cluster_CACertificate : string;
  Members : gmap string (Member host);
  State : ContainersState
}.

(** The body of the loop of [propagateMember]: one entry appended to each of
    the two slices. *)
Definition appendMember (acc : list string * list string)
    (entry : string * Member host) : list string * list string :=
  let '(initialClusterArr, peerCertAllowedCNArr) := acc in
  let '(n, m) := entry in
  (initialClusterArr ++ [peerEntry (memberName n) (PeerAddress m)],
   peerCertAllowedCNArr ++ [memberName n]).

Definition propagateMember (seed : list nat) (c : Cluster) (i : string)
    (m : Member host) : Member host :=
  let '(initialClusterArr, peerCertAllowedCNArr) :=
    foldl appendMember ([], []) (gomap.range seed (Members c)) in
  let initialClusterArr := strings.Strings initialClusterArr in
  let peerCertAllowedCNArr := strings.Strings peerCertAllowedCNArr in
  {| Name := util.PickString [Name m; memberName i];
     Image := util.PickString [Image m; Cluster_Image c];
     InitialCluster :=
       util.PickString [InitialCluster m; strings.Join initialClusterArr ","];
     PeerCertAllowedCN :=
       util.PickString [PeerCertAllowedCN m; strings.Join peerCertAllowedCNArr ","];
     CACertificate := util.PickString [CACertificate m; Cluster_CACertificate c];
     Host_ := BuildConfig (Host_ m) {| DirectConfig := None; SSHConfig := SSH c |};
     PeerAddress := PeerAddress m;
     NewCluster := if Nat.eqb (size (State c)) 0 then true else NewCluster m |}.

(** The entry of one member in the initial cluster, and the entries of all
    members in the order of the keys. *)
Definition clusterEntry (entry : string * Member host) : string :=
  peerEntry (memberName entry.1) (PeerAddress entry.2).

Definition initialClusterEntries (M : gmap string (Member host)) : list string :=
  clusterEntry <$> map_to_list M.

(** [container.Containers], the engine the cluster wraps. *)
Record Containers : Type := {
  PreviousState : ContainersState;
  DesiredState : ContainersState
}.

Record cluster : Type := {
  image : string;
  ssh : option sshConfig;
  caCertificate : string;
  containers : Containers;
  members : gmap string member
}.

(** A container lifecycle operation of the engine, on the container of a key. *)
Inductive lifecycle : Type :=
| OpCreate (key : string)
| OpCopy (key : string)
| OpStart (key : string)
| OpStop (key : string)
| OpDelete (key : string).

(** What leaves the process during [Deploy]. *)
Inductive event : Type :=
| ForwardEndpoints (via : member) (endpoints : list string)
| GetEtcdClient (via : member) (endpoints : list string)
| MemberRemove (name : string)
| MemberAdd (m : member)
| Close
| ContainerOp (op : lifecycle).

Definition World : Type := list event.

(** The [etcdClient] built by [getEtcdClient], known by its endpoints. *)
Record etcdClient : Type := { endpoints : list string }.

(** The outside of [Deploy]: the order of every map iteration, the answers of
    the transport and of the etcd cluster after a given history, and the
    engine, which after a given history performs a list of lifecycle
    operations and returns an error or not, and its new previous state. *)
Record Env : Type := {
  seedEndpoints : list nat;
  seedFirst : list nat;
  seedRemove : list nat;
  seedAdd : list nat;
  forwardAnswer : World -> member -> list string -> result (list string);
  clientAnswer : World -> member -> list string -> option error;
  removeAnswer : World -> string -> option error;
  addAnswer : World -> member -> option error;
  engine : World -> Containers -> list lifecycle * option error * ContainersState
}.

Definition getExistingEndpoints (seed : list nat) (c : cluster) : list string :=
  foldl
    (fun endpoints '(i, m) =>
       match PreviousState (containers c) !! i with
       | None => endpoints
       | Some _ => endpoints ++ [peerAddress m +:+ ":2379"]
       end)
    [] (gomap.range seed (members c)).

Definition firstMember (seed : list nat) (c : cluster) : result member :=
  let m :=
    match gomap.range seed (members c) with
    | (i, _) :: _ => members c !! i
    | [] => None
    end in
  match m with
  | None => Err (errorString "no members defined")
  | Some m => Ok m
  end.

(** The methods [forwardEndpoints] and [getEtcdClient] of [member]: the
    transport and the dial answer. *)
Definition member_forwardEndpoints (env : Env) (m : member) (e : list string)
  : Run World (result (list string)) :=
  invoke (fun w => forwardAnswer env w m e) (ForwardEndpoints m e).

Definition member_getEtcdClient (env : Env) (m : member) (e : list string)
  : Run World (result etcdClient) :=
  invoke
    (fun w =>
       match clientAnswer env w m e with
       | Some err => Err err
       | None => Ok {| endpoints := e |}
       end)
    (GetEtcdClient m e).

Definition getClient (env : Env) (c : cluster) : Run World (result etcdClient) :=
  match firstMember (seedFirst env) c with
  | Err err => ret (Err (Errorf_w "failed getting member object: " err))
  | Ok m =>
      let* r := member_forwardEndpoints env m
                  (getExistingEndpoints (seedEndpoints env) c) in
      match r with
      | Err err => ret (Err (Errorf_w "failed forwarding endpoints: " err))
      | Ok endpoints => member_getEtcdClient env m endpoints
      end
  end.

Definition membersToRemove (seed : list nat) (c : cluster) : list string :=
  foldl
    (fun m '(i, _) =>
       match DesiredState (containers c) !! i with
       | None => m ++ [i]
       | Some _ => m
       end)
    [] (gomap.range seed (PreviousState (containers c))).

Definition membersToAdd (seed : list nat) (c : cluster) : list string :=
  foldl
    (fun m '(i, _) =>
       match PreviousState (containers c) !! i with
       | None => m ++ [i]
       | Some _ => m
       end)
    [] (gomap.range seed (DesiredState (containers c))).

(** Modelled from the spec: the method [remove] of [member].  For each key to
    be removed, [MemberRemove] is called on the cluster: one RPC, whose error
    is the method's. *)
Definition member_remove (env : Env) (m : member) (cli : etcdClient)
  : Run World (option error) :=
  invoke (fun w => removeAnswer env w (name m)) (MemberRemove (name m)).

(** Modelled from the spec: the method [add] of [member].  For each key to be
    added, [MemberAdd] is called with the new member's peer URL: one RPC, whose
    error is the method's.  The receiver is the entry of [c.members], a
    pointer; a key without entry gives [nil], which has no peer URL. *)
Definition member_add (env : Env) (m : option member) (cli : etcdClient)
  : Run World (option error) :=
  match m with
  | None => panic
  | Some m => invoke (fun w => addAnswer env w m) (MemberAdd m)
  end.

(** The first loop of [updateMembers]. *)
Fixpoint removeMembers (env : Env) (cli : etcdClient) (names : list string)
  : Run World (option error) :=
  match names with
  | [] => ret None
  | name :: rest =>
      let m := {| name := name; peerAddress := EmptyString |} in
      let* err := member_remove env m cli in
      match err with
      | Some err => ret (Some (Errorf_w "failed removing member: " err))
      | None => removeMembers env cli rest
      end
  end.

(** The second loop of [updateMembers]. *)
Fixpoint addMembers (env : Env) (c : cluster) (cli : etcdClient)
    (keys : list string) : Run World (option error) :=
  match keys with
  | [] => ret None
  | m :: rest =>
      let* err := member_add env (members c !! m) cli in
      match err with
      | Some err => ret (Some (Errorf_w "failed adding member: " err))
      | None => addMembers env c cli rest
      end
  end.

Definition updateMembers (env : Env) (c : cluster) (cli : etcdClient)
  : Run World (option error) :=
  let* err := removeMembers env cli (membersToRemove (seedRemove env) c) in
  match err with
  | Some err => ret (Some err)
  | None => addMembers env c cli (membersToAdd (seedAdd env) c)
  end.

(** [c.containers.Deploy()]: the engine performs its lifecycle operations and
    updates the previous state in place. *)
Definition Containers_Deploy (env : Env) (c : cluster)
  : Run World (option error * cluster) :=
  fun w =>
    let '(ops, err, previous) := engine env w (containers c) in
    (Return
       (err,
        {| image := image c; ssh := ssh c; caCertificate := caCertificate c;
           containers :=
             {| PreviousState := previous;
                DesiredState := DesiredState (containers c) |};
           members := members c |}),
     w ++ map ContainerOp ops).

(** [cli.Close()] *)
Definition etcdClient_Close (cli : etcdClient) : Run World (option error) :=
  invoke (fun _ => None) Close.

Definition Deploy (env : Env) (c : cluster) : Run World (option error * cluster) :=
  (* If we create new cluster or destroy entire cluster, just start deploying. *)
  if negb (Nat.eqb (size (PreviousState (containers c))) 0)
     && negb (Nat.eqb (size (DesiredState (containers c))) 0)
  then
    (* Build client, so we can pass it around. *)
    let* r := getClient env c in
    match r with
    | Err err => ret (Some (Errorf_w "failed getting etcd client: " err), c)
    | Ok cli =>
        defer (etcdClient_Close cli)
          (let* err := updateMembers env c cli in
           match err with
           | Some err =>
               ret (Some (Errorf_w "failed to update members before deploying: " err), c)
           | None => Containers_Deploy env c
           end)
    end
  else Containers_Deploy env c.

(** *** Reading a history

    [gate c] is the condition of [Deploy]; [phase] orders the kinds of events;
    [answerOf env h e] is the error, if any, the outside answers to [e] after
    the history [h]; [firstFailure env h evs] is the first error answered to
    the events [evs] issued in turn after [h]. *)

Definition firstMember_ok (seed : list nat) (c : cluster) : option member :=
  match firstMember seed c with
  | Ok m => Some m
  | Err _ => None
  end.

Definition gate (c : cluster) : bool :=
  negb (Nat.eqb (size (PreviousState (containers c))) 0)
  && negb (Nat.eqb (size (DesiredState (containers c))) 0).

Definition phase (e : event) : nat :=
  match e with
  | ForwardEndpoints _ _ | GetEtcdClient _ _ => 0
  | MemberRemove _ => 1
  | MemberAdd _ => 2
  | ContainerOp _ => 3
  | Close => 4
  end.

Definition inPhaseOrder (a b : event) : Prop := phase a <= phase b.

(** The keys of the previous state that the desired state has not, and the
    keys of the desired state that the previous state has not. *)
Definition toRemove (c : cluster) (k : string) : Prop :=
  is_Some (PreviousState (containers c) !! k) /\
  DesiredState (containers c) !! k = None.

Definition toAdd (c : cluster) (k : string) : Prop :=
  is_Some (DesiredState (containers c) !! k) /\
  PreviousState (containers c) !! k = None.

Definition isMembershipRPC (e : event) : bool :=
  match e with
  | MemberRemove _ | MemberAdd _ => true
  | _ => false
  end.

Definition isContainerOp (e : event) : bool :=
  match e with
  | ContainerOp _ => true
  | _ => false
  end.

Definition answerOf (env : Env) (h : World) (e : event) : option error :=
  match e with
  | ForwardEndpoints m eps =>
      match forwardAnswer env h m eps with
      | Err err => Some err
      | Ok _ => None
      end
  | GetEtcdClient m eps => clientAnswer env h m eps
  | MemberRemove n => removeAnswer env h n
  | MemberAdd m => addAnswer env h m
  | Close => None
  | ContainerOp _ => None
  end.

Fixpoint firstFailure (env : Env) (h : World) (evs : list event) : option error :=
  match evs with
  | [] => None
  | e :: rest =>
      match answerOf env h e with
      | Some err => Some err
      | None => firstFailure env (h ++ [e]) rest
      end
  end.

End WithTypes.

Arguments Cluster : clear implicits.
Arguments Containers : clear implicits.
Arguments cluster : clear implicits.
Arguments Env : clear implicits.

End etcd.

(** ** Sample configurations *)

(** A Docker configuration whose client cannot be built, and one whose client
    is built and whose daemon accepts every call. *)
Definition failingDocker (_ : option docker_config.Config) : result runtime.Runtime :=
  Err (errorString "unable to parse docker host").

Definition obligingRuntime : runtime.Runtime :=
  {| runtime.Create := fun _ _ => Ok "id";
     runtime.Status := fun _ _ => Ok None;
     runtime.Read := fun _ _ _ => Ok [];
     runtime.Copy := fun _ _ _ _ => None;
     runtime.Stat := fun _ _ _ => Ok None;
     runtime.Start := fun _ _ => None;
     runtime.Stop := fun _ _ => None;
     runtime.Delete := fun _ _ => None |}.

Definition obligingDocker (_ : option docker_config.Config) : result runtime.Runtime :=
  Ok obligingRuntime.

Definition fooConfig : types.ContainerConfig.t :=
  types.ContainerConfig.mk "foo" "busybox:latest" [] [] [] [].

Definition fooContainer (status : option types.ContainerStatus.t)
  : container.Container :=
  {| container.Config := fooConfig;
     container.Status := status;
     container.Runtime :=
       {| container.Docker := Some {| docker_config.Host := "foo" |} |} |}.

Definition fooStatus (id : string) : types.ContainerStatus.t :=
  types.ContainerStatus.mk "busybox:latest" id "foo" "running".


(** A closure that answers from a script, one entry per invocation, and [nil]
    when the script is over. *)
Definition scripted (script : list (option error)) : option error * list (option error) :=
  match script with
  | [] => (None, [])
  | r :: rest => (r, rest)
  end.

Definition leaderChanged : error := errorString "etcdserver: leader changed".

Definition notFound : error := errorString "release: not found".

(** Two members whose fields are all unset but the peer address, in a cluster
    without state. *)
Definition sampleHost : etcd.Host unit unit :=
  {| etcd.DirectConfig := Some tt; etcd.SSHConfig := None |}.

Definition sampleMember (address : string) : etcd.Member (etcd.Host unit unit) :=
  {| etcd.Name := EmptyString;
     etcd.Image := EmptyString;
     etcd.Host_ := sampleHost;
     etcd.CACertificate := EmptyString;
     etcd.PeerAddress := address;
     etcd.InitialCluster := EmptyString;
     etcd.PeerCertAllowedCN := EmptyString;
     etcd.NewCluster := false |}.

Definition sampleCluster : etcd.Cluster unit unit unit :=
  {| etcd.Cluster_Image := "etcd:v3";
     etcd.SSH := None;
     etcd.Cluster_CACertificate := EmptyString;
     etcd.Members :=
       {[ "b" := sampleMember "10.0.0.2"; "a" := sampleMember "10.0.0.1" ]};
     etcd.State := ∅ |}.

Definition keepHost (h _ : etcd.Host unit unit) : etcd.Host unit unit := h.

(** A cluster of three members in which the key [m2] gives way to [m3]. *)
Definition sampleValidated (key address : string) : etcd.member :=
  {| etcd.name := "etcd-" +:+ key; etcd.peerAddress := address |}.

Definition swapCluster : etcd.cluster unit unit :=
  {| etcd.image := "etcd:v3";
     etcd.ssh := None;
     etcd.caCertificate := EmptyString;
     etcd.containers :=
       {| etcd.PreviousState := {[ "m0" := tt; "m1" := tt; "m2" := tt ]};
          etcd.DesiredState := {[ "m0" := tt; "m1" := tt; "m3" := tt ]} |};
     etcd.members :=
       {[ "m0" := sampleValidated "m0" "10.0.0.10";
          "m1" := sampleValidated "m1" "10.0.0.11";
          "m3" := sampleValidated "m3" "10.0.0.13" ]} |}.

Definition swapPlan : list etcd.lifecycle :=
  [etcd.OpStop "m2"; etcd.OpDelete "m2";
   etcd.OpCreate "m3"; etcd.OpCopy "m3"; etcd.OpStart "m3"].

(** An outside in which every call succeeds, and one in which the etcd server
    refuses to remove a member. *)
Definition quietEnv : etcd.Env unit :=
  {| etcd.seedEndpoints := [2; 1; 0];
     etcd.seedFirst := [2; 1; 0];
     etcd.seedRemove := [];
     etcd.seedAdd := [];
     etcd.forwardAnswer := fun _ _ eps => Ok eps;
     etcd.clientAnswer := fun _ _ _ => None;
     etcd.removeAnswer := fun _ _ => None;
     etcd.addAnswer := fun _ _ => None;
     etcd.engine := fun _ cs => (swapPlan, None, etcd.DesiredState cs) |}.

Definition refusingEnv : etcd.Env unit :=
  {| etcd.seedEndpoints := [2; 1; 0];
     etcd.seedFirst := [2; 1; 0];
     etcd.seedRemove := [];
     etcd.seedAdd := [];
     etcd.forwardAnswer := fun _ _ eps => Ok eps;
     etcd.clientAnswer := fun _ _ _ => None;
     etcd.removeAnswer :=
       fun _ _ => Some (errorString "etcdserver: re-configuration failed");
     etcd.addAnswer := fun _ _ => None;
     etcd.engine := fun _ cs => (swapPlan, None, etcd.DesiredState cs) |}.

(** ** Helm releases: the operations on a release

    The methods of [release] in [pkg/helm/release/release.go].  The Kubernetes
    API server and the chart repository are the outside: each call is an event,
    answered by an oracle after the history so far. *)

Module helm.

(** What [driver.ErrReleaseNotFound] reads. *)
Definition ErrReleaseNotFound : error := errorString "release: not found".

(** The error value of a history run.  [driver.ErrReleaseNotFound] is one
    value, and Go's [==] tells it from every other error value, also from one
    that reads the same: the value is kept apart from what it reads. *)
Inductive historyError : Type :=
| releaseNotFound
| otherError (err : error).

Definition asError (e : historyError) : error :=
  match e with
  | releaseNotFound => ErrReleaseNotFound
  | otherError err => err
  end.

Inductive event : Type :=
| PingWait
| HistoryRun (name : string)
| LocateChart (chart : string)
| LoadChart (path : string)
| InstallRun (name path : string)
| UpgradeRun (name path : string)
| UninstallRun (name : string).

Definition World : Type := list event.

(** The fields of [release] that name what is asked of the outside. *)
Record release : Type := {
  name : string;
  namespace : string;
  version : string;
  chart : string;
  createNamespace : bool;
  wait : bool
}.

Record Outside : Type := {
  pingAnswer : World -> option error;
  historyAnswer : World -> string -> option historyError;
  locateAnswer : World -> string -> result string;
  loadAnswer : World -> string -> option error;
  installAnswer : World -> string -> string -> option error;
  upgradeAnswer : World -> string -> string -> option error;
  uninstallAnswer : World -> string -> option error
}.

(** One call to the outside. *)
Definition call {T : Type} (answer : World -> T) (e : event) : World -> T * World :=
  fun w => (answer w, w ++ [e]).

(** [fmt.Errorf] without verb. *)
Definition timedOut : error :=
  errorString "timed out waiting for kube-apiserver to be reachable".

(** [loadChart]: the chart is known by the path it was located at. *)
Definition loadChart (o : Outside) (r : release) (w : World) : result string * World :=
  let '(cp, w) := call (fun w => locateAnswer o w (chart r)) (LocateChart (chart r)) w in
  match cp with
  | Err err => (Err (Errorf_w "locating chart: " err), w)
  | Ok cp =>
      let '(err, w) := call (fun w => loadAnswer o w cp) (LoadChart cp) w in
      match err with
      | Some err => (Err err, w)
      | None => (Ok cp, w)
      end
  end.

Definition ValidateChart (o : Outside) (r : release) (w : World) : option error * World :=
  let '(c, w) := loadChart o r w in
  match c with
  | Err err => (Some (Errorf_w "validating chart: " err), w)
  | Ok _ => (None, w)
  end.

Definition Install (o : Outside) (r : release) (w : World) : option error * World :=
  let '(err, w) := call (pingAnswer o) PingWait w in
  match err with
  | Some _ => (Some timedOut, w)
  | None =>
      let '(c, w) := loadChart o r w in
      match c with
      | Err err => (Some (Errorf_w "loading chart: " err), w)
      | Ok c =>
          (* Install a release. *)
          let '(err, w) :=
            release.retryOnEtcdError
              (call (fun w => installAnswer o w (name r) c) (InstallRun (name r) c)) w in
          match err with
          | Some err => (Some (Errorf_w "installing a release: " err), w)
          | None => (None, w)
          end
      end
  end.

Definition Upgrade (o : Outside) (r : release) (w : World) : option error * World :=
  let '(err, w) := call (pingAnswer o) PingWait w in
  match err with
  | Some _ => (Some timedOut, w)
  | None =>
      let '(c, w) := loadChart o r w in
      match c with
      | Err err => (Some (Errorf_w "loading chart: " err), w)
      | Ok c =>
          let '(err, w) :=
            release.retryOnEtcdError
              (call (fun w => upgradeAnswer o w (name r) c) (UpgradeRun (name r) c)) w in
          match err with
          | Some err => (Some (Errorf_w "upgrading a release: " err), w)
          | None => (None, w)
          end
      end
  end.

(** The closure [Exists] hands to [retryOnEtcdError].  Beside the world it
    leaves the value it returned last, which is the value [retryOnEtcdError]
    returns when it returns an error. *)
Definition historyRun (o : Outside) (r : release)
  : World * option historyError -> option error * (World * option historyError) :=
  fun '(w, _) =>
    let '(err, w) := call (fun w => historyAnswer o w (name r)) (HistoryRun (name r)) w in
    (asError <$> err, (w, err)).

Definition Exists (o : Outside) (r : release) (w : World) : result bool * World :=
  let '(err, w) := call (pingAnswer o) PingWait w in
  match err with
  | Some _ => (Err timedOut, w)
  | None =>
      let '(err, (w, value)) :=
        release.retryOnEtcdError (historyRun o r) (w, None) in
      match err with
      | Some err =>
          match value with
          | Some releaseNotFound => (Ok false, w)
          | _ => (Err (Errorf_w "checking if release exists: " err), w)
          end
      | None => (Ok true, w)
      end
  end.

Definition InstallOrUpgrade (o : Outside) (r : release) (w : World)
  : option error * World :=
  let '(e, w) := Exists o r w in
  match e with
  | Err err => (Some (Errorf_w "checking release existence: " err), w)
  | Ok true => Upgrade o r w
  | Ok false => Install o r w
  end.

Definition Uninstall (o : Outside) (r : release) (w : World) : option error * World :=
  (* Check if release exists. *)
  let '(releaseExists, w) := Exists o r w in
  match releaseExists with
  | Err err => (Some (Errorf_w "checking if release exists: " err), w)
  | Ok false => (None, w)
  | Ok true =>
      let '(err, w) :=
        release.retryOnEtcdError
          (call (fun w => uninstallAnswer o w (name r)) (UninstallRun (name r))) w in
      match err with
      | Some err => (Some (Errorf_w "uninstalling a release: " err), w)
      | None => (None, w)
      end
  end.

(** Reading a history. *)
Definition isInstallRun (e : event) : bool :=
  match e with InstallRun _ _ => true | _ => false end.

Definition isUpgradeRun (e : event) : bool :=
  match e with UpgradeRun _ _ => true | _ => false end.

Definition isUninstallRun (e : event) : bool :=
  match e with UninstallRun _ => true | _ => false end.

Definition isHistoryRun (e : event) : bool :=
  match e with HistoryRun _ => true | _ => false end.

Definition count (p : event -> bool) (evs : list event) : nat :=
  length (List.filter p evs).

End helm.

(** ** Reading the outcome of a container operation *)

Module container_outcome.

Import container.

(** The operation returned, with the container's configuration and runtime
    configuration as they were, and the whole container as it was when the
    operation returned an error. *)
Definition settled (c : Container)
    (x : outcome (option error * Container) * World) : Prop :=
  exists r c' w',
    x = (Return (r, c'), w') /\
    Config c' = Config c /\ Runtime c' = Runtime c /\
    (r <> None -> c' = c).

(** The container after a status refresh that the runtime answered with
    [status]. *)
Definition withStatus (c : Container) (status : option types.ContainerStatus.t)
  : Container :=
  {| Config := Config c; Status := status; Runtime := Runtime c |}.

(** What a status refresh of the container [id] returns after the history
    [w]: the refreshed container, or the error of the runtime with the name
    of the container in front. *)
Definition refreshed (r : runtime.Runtime) (c : Container) (id : string)
    (w : World) : option error * Container :=
  match runtime.Status r w id with
  | Ok s => (None, withStatus c s)
  | Err e =>
      (Some (wrapError
               ("getting status for container '"
                +:+ types.ContainerConfig.Name (Config c) +:+ "' failed: ") e),
       c)
  end.

End container_outcome.

(** ** Reading an etcd cluster *)

Module etcd_reading.

Definition isClose (e : etcd.event) : bool :=
  match e with
  | etcd.Close => true
  | _ => false
  end.

(** The names of all members, in the order of the keys. *)
Definition peerNames {host : Type} (M : gmap string (etcd.Member host))
  : list string :=
  (fun e => etcd.memberName e.1) <$> map_to_list M.

(** A cluster whose keys stay: the desired state has the keys of the previous
    state. *)
Definition steadyCluster : etcd.cluster unit unit :=
  {| etcd.image := "etcd:v3";
     etcd.ssh := None;
     etcd.caCertificate := EmptyString;
     etcd.containers :=
       {| etcd.PreviousState := {[ "m0" := tt; "m1" := tt ]};
          etcd.DesiredState := {[ "m0" := tt; "m1" := tt ]} |};
     etcd.members :=
       {[ "m0" := {| etcd.name := "etcd-m0"; etcd.peerAddress := "10.0.0.10" |};
          "m1" := {| etcd.name := "etcd-m1"; etcd.peerAddress := "10.0.0.11" |} ]} |}.

(** A cluster whose desired key [m3] has no entry among the members. *)
Definition brokenCluster : etcd.cluster unit unit :=
  {| etcd.image := "etcd:v3";
     etcd.ssh := None;
     etcd.caCertificate := EmptyString;
     etcd.containers :=
       {| etcd.PreviousState := {[ "m0" := tt ]};
          etcd.DesiredState := {[ "m0" := tt; "m3" := tt ]} |};
     etcd.members :=
       {[ "m0" := {| etcd.name := "etcd-m0"; etcd.peerAddress := "10.0.0.10" |} ]} |}.

End etcd_reading.

(** ** The control plane example: [main]

    [main] reads the state and the configuration, builds the control plane,
    refreshes and deploys it, and saves the new state.  The control plane is
    a [types.Resource]: a value with state, given by its three methods. *)

Module ioutil.

(** How a write ends, which the disk decides: [os.OpenFile] fails and nothing
    is changed; or the file was opened, which truncates it, and [Write] or
    [Close] failed when [written] bytes had been written; or every byte was
    written. *)
Inductive writeAnswer : Type :=
| OpenFails (err : error)
| WriteFails (written : nat) (err : error)
| Written.

(** The disk after [data] was put at [file].  A path that is there and cannot
    be read (a directory, a file without the permission to read it) cannot be
    read afterwards either. *)
Definition store (fs : os.FileSystem) (file : string) (data : list Byte.byte)
  : os.FileSystem :=
  match fs !! file with
  | Some (Err _) => fs
  | _ => <[file := Ok data]> fs
  end.

(** [ioutil.WriteFile]: [os.OpenFile] with [O_WRONLY|O_CREATE|O_TRUNC], then
    [Write] and [Close]. *)
Definition WriteFile (answer : writeAnswer) (fs : os.FileSystem) (file : string)
    (data : list Byte.byte) : option error * os.FileSystem :=
  match answer with
  | OpenFails err => (Some err, fs)
  | WriteFails written err => (Some err, store fs file (take written data))
  | Written => (None, store fs file data)
  end.

End ioutil.

Module example.

Record Resource (R : Type) : Type := {
  CheckCurrentState : R -> option error * R;
  Deploy : R -> option error * R;
  StateToYaml : R -> result (list Byte.byte)
}.

Arguments CheckCurrentState {R} _ _.
Arguments Deploy {R} _ _.
Arguments StateToYaml {R} _ _.

Section main.

Context {R : Type}.

(** [controlplane.FromYaml], and the methods of the resource it returns. *)
Variable FromYaml : list Byte.byte -> result R.
Variable resource : Resource R.

(** How the disk answers a write of these bytes to this path. *)
Variable disk : os.FileSystem -> string -> list Byte.byte -> ioutil.writeAnswer.

(** [main]: what it leaves on disk and what it printed, and whether it
    returned or panicked. *)
Definition main (fs : os.FileSystem) : outcome unit * os.FileSystem * list string :=
  let out := ["Reading state file state.yaml"] in
  match main.readYamlFile fs "state.yaml" with
  | Err _ => (Panic, fs, out)
  | Ok s =>
  let out := out ++ ["Reading config file config.yaml"] in
  match main.readYamlFile fs "config.yaml" with
  | Err _ => (Panic, fs, out)
  | Ok config =>
  let out := out ++ ["Creating static Kubernetes Control Plane containers"] in
  match FromYaml (main.mergedDocument s config) with
  | Err _ => (Panic, fs, out)
  | Ok c =>
  let out := out ++ ["Checking current state of the containers"] in
  match CheckCurrentState resource c with
  | (Some _, _) => (Panic, fs, out)
  | (None, c) =>
  let out := out ++ ["Deploying container updates"] in
  match Deploy resource c with
  | (Some _, _) => (Panic, fs, out)
  | (None, c) =>
  let out := out ++ ["Saving new containers state to state.yaml file"] in
  match StateToYaml resource c with
  | Err _ => (Panic, fs, out)
  | Ok state =>
  let state :=
    if String.eqb (string_of_list_byte state) main.emptyYAML then [] else state in
  match ioutil.WriteFile (disk fs "state.yaml" state) fs "state.yaml" state with
  | (Some _, fs) => (Panic, fs, out)
  | (None, fs) => (Return tt, fs, out ++ ["Run complete"])
  end end end end end end end.

End main.

(** A resource that counts its deployments and whose state document is empty
    until the first one. *)
Definition counter : Resource nat :=
  {| CheckCurrentState := fun n => (None, n);
     Deploy := fun n => (None, S n);
     StateToYaml :=
       fun n =>
         match n with
         | 0 => Ok (list_byte_of_string main.emptyYAML)
         | S _ => Ok (list_byte_of_string "state: {}")
         end |}.

Definition counterFromYaml (doc : list Byte.byte) : result nat :=
  Ok (length doc).

Definition configOnly : os.FileSystem :=
  {[ "config.yaml" := Ok (list_byte_of_string "apiServerPort: 6443") ]}.

(** A disk on which every write goes through. *)
Definition obligingDisk
  : os.FileSystem -> string -> list Byte.byte -> ioutil.writeAnswer :=
  fun _ _ _ => ioutil.Written.

End example.

(** ** The end-to-end test: [e2e/main_test.go] *)

Module e2e.

(** [ip[j]++] on a byte. *)
Definition incByte (b : Z) : Z := (b + 1) mod 256.

(** The loop of [inc], [n] being [j + 1]: the indices below [n] are still to
    be visited.  The index is always in range. *)
Fixpoint incFrom (n : nat) (ip : list Z) : list Z :=
  match n with
  | 0 => ip
  | S j =>
      match ip !! j with
      | None => ip
      | Some b =>
          let ip := <[j := incByte b]> ip in
          if (0 <? incByte b)%Z then ip else incFrom j ip
      end
  end.

Definition inc (ip : list Z) : list Z := incFrom (length ip) ip.

(** The address as a number, most significant byte first. *)
Definition bigEndian (ip : list Z) : Z :=
  fold_left (fun acc b => (acc * 256 + b)%Z) ip 0%Z.

Definition isByte (b : Z) : Prop := (0 <= b < 256)%Z.

End e2e.

(** ** The Terraform provider: [kubeSchedulerUnmarshal]

    The provider receives a block as an [interface{}] value: [nil], a map, a
    slice or a scalar. *)

Module flexkube.

#[warnings="-register-all"] Inductive value : Type :=
| VNil
| VString (s : string)
| VList (l : list value)
| VMap (m : gmap string value).

(** The type assertion [v.([]interface{})], which panics on any other value. *)
Definition asSlice (v : value) : outcome (list value) :=
  match v with
  | VList l => Return l
  | _ => Panic
  end.

Section kubeScheduler.

(** The types of the three fields of [controlplane.KubeScheduler], with their
    zero values, and the functions that decode each block. *)
Context {Common Host Kubeconfig : Type}.

Variable zeroCommon : Common.
Variable zeroHost : Host.
Variable zeroKubeconfig : Kubeconfig.
Variable controlplaneCommonUnmarshal : value -> Common.
Variable hostUnmarshal : value -> Host.
Variable kubeconfigUnmarshal : value -> Kubeconfig.

Record KubeScheduler : Type := {
  KubeScheduler_Common : Common;
  KubeScheduler_Host : Host;
  KubeScheduler_Kubeconfig : Kubeconfig
}.

(** One [if v, ok := j[key]; ok && len(v.([]interface{})) == 1] statement:
    the element to decode, if the statement decodes one. *)
Definition singleBlock (j : gmap string value) (key : string)
  : outcome (option value) :=
  match j !! key with
  | None => Return None
  | Some v =>
      match asSlice v with
      | Panic => Panic
      | Return [x] => Return (Some x)
      | Return _ => Return None
      end
  end.

Definition kubeSchedulerUnmarshal (i : value) : outcome KubeScheduler :=
  let c :=
    {| KubeScheduler_Common := zeroCommon;
       KubeScheduler_Host := zeroHost;
       KubeScheduler_Kubeconfig := zeroKubeconfig |} in
  match i with
  (* If optional block is not defined, return empty struct. *)
  | VNil => Return c
  | VMap j =>
      (* If optional block is defined, but has no values defined, return empty
         struct as well. *)
      if Nat.eqb (size j) 0 then Return c
      else
        match singleBlock j "common" with
        | Panic => Panic
        | Return common =>
            let c :=
              match common with
              | Some x =>
                  {| KubeScheduler_Common := controlplaneCommonUnmarshal x;
                     KubeScheduler_Host := KubeScheduler_Host c;
                     KubeScheduler_Kubeconfig := KubeScheduler_Kubeconfig c |}
              | None => c
              end in
            match singleBlock j "host" with
            | Panic => Panic
            | Return host =>
                let c :=
                  match host with
                  | Some x =>
                      {| KubeScheduler_Common := KubeScheduler_Common c;
                         KubeScheduler_Host := hostUnmarshal x;
                         KubeScheduler_Kubeconfig := KubeScheduler_Kubeconfig c |}
                  | None => c
                  end in
                match singleBlock j "kubeconfig" with
                | Panic => Panic
                | Return kubeconfig =>
                    Return
                      match kubeconfig with
                      | Some x =>
                          {| KubeScheduler_Common := KubeScheduler_Common c;
                             KubeScheduler_Host := KubeScheduler_Host c;
                             KubeScheduler_Kubeconfig := kubeconfigUnmarshal x |}
                      | None => c
                      end
                end
            end
        end
  | _ => Return c
  end.

End kubeScheduler.

(** The value a key decodes from: the single element of its slice. *)
Definition blockOf (j : gmap string value) (key : string) : option value :=
  match j !! key with
  | Some (VList [x]) => Some x
  | _ => None
  end.

(** The key is there and its value is no slice. *)
Definition notSlice (j : gmap string value) (key : string) : Prop :=
  match j !! key with
  | Some (VList _) => False
  | Some _ => True
  | None => False
  end.

End flexkube.

(** * Properties *)

(** ** Strings *)

Section string_facts.

Lemma HasPrefix_spec (s prefix : string) :
  strings.HasPrefix s prefix = true <-> exists rest, s = prefix +:+ rest.
Proof.
  revert s. induction prefix as [|a p IH]; intros s; simpl.
  - split; [intros _; exists s; reflexivity | reflexivity].
  - destruct s as [|b s']; simpl.
    + split; [discriminate | intros [rest H]; discriminate H].
    + destruct (Ascii.eqb_spec a b) as [->|Hne].
      * rewrite IH. split; intros [rest H]; exists rest.
        -- now rewrite H.
        -- now inversion H.
      * split; [discriminate | intros [rest H]; inversion H; congruence].
Qed.

Lemma Contains_spec (s substr : string) :
  strings.Contains s substr = true <->
  exists before rest, s = before +:+ substr +:+ rest.
Proof.
  induction s as [|a s IH]; simpl.
  - rewrite orb_false_r, HasPrefix_spec. split.
    + intros [rest H]. exists EmptyString, rest. exact H.
    + intros ([|b before] & rest & H); [exists rest; exact H | discriminate H].
  - rewrite orb_true_iff, HasPrefix_spec, IH. split.
    + intros [[rest H] | (before & rest & H)].
      * exists EmptyString, rest. exact H.
      * exists (String a before), rest. now rewrite H.
    + intros ([|b before] & rest & H).
      * left. exists rest. exact H.
      * right. inversion H. now exists before, rest.
Qed.

Lemma Contains_app_r (s t substr : string) :
  strings.Contains t substr = true -> strings.Contains (s +:+ t) substr = true.
Proof.
  rewrite !Contains_spec. intros (before & rest & ->).
  exists (s +:+ before), rest.
  induction s as [|a s IH]; [reflexivity|].
  change (String a (s +:+ before +:+ substr +:+ rest)
          = String a ((s +:+ before) +:+ substr +:+ rest)).
  now rewrite IH.
Qed.

End string_facts.

(** ** [retryOnEtcdError] *)

Section retry_facts.

Context {W : Type} (f : W -> option error * W).

(** C6.  [retryOnEtcdError f] invokes [f] some [k] times, [k] between 1 and 3,
    and returns the answer of the last invocation.  Every invocation before
    the last answered with an error whose message contains [etcdserver:], so
    [f] is invoked again only after such an error; and when fewer than 3
    invocations were made, the last answer is [nil] or an error without
    [etcdserver:] in its message, so success and any other error are returned
    at once.  After 3 etcd server errors the third error is returned. *)
Theorem retryOnEtcdError_spec (w : W) :
  exists k : nat,
    1 <= k <= 3 /\
    release.retryOnEtcdError (release.counting f) (0, w)
    = (release.answer f (k - 1) w, (k, release.after f k w)) /\
    (forall j, j < k - 1 -> release.etcdError (release.answer f j w) = true) /\
    (k < 3 -> release.etcdError (release.answer f (k - 1) w) = false).
Proof.
  unfold release.retryOnEtcdError, release.answer. simpl.
  destruct (f w) as [r1 w1] eqn:E1. simpl.
  destruct r1 as [e1|]; cycle 1.
  { exists 1. simpl. rewrite E1.
    repeat split; intros; simpl; try lia; reflexivity. }
  destruct (strings.Contains (Error e1) "etcdserver:") eqn:C1; cycle 1.
  { exists 1. simpl. rewrite E1.
    repeat split; intros; simpl; try lia; assumption. }
  assert (A1 : forall j, j < 1 ->
            release.etcdError (fst (f (release.after f j w))) = true).
  { intros [|j] Hj; [|lia]. simpl. rewrite E1. exact C1. }
  destruct (f w1) as [r2 w2] eqn:E2. simpl.
  destruct r2 as [e2|]; cycle 1.
  { exists 2. simpl. rewrite E1. simpl. rewrite E2.
    repeat split; intros; simpl; try lia; try reflexivity. apply A1; lia. }
  destruct (strings.Contains (Error e2) "etcdserver:") eqn:C2; cycle 1.
  { exists 2. simpl. rewrite E1. simpl. rewrite E2.
    repeat split; intros; simpl; try lia; try assumption. apply A1; lia. }
  assert (A2 : forall j, j < 2 ->
            release.etcdError (fst (f (release.after f j w))) = true).
  { intros [|[|j]] Hj; [apply A1; lia| |lia].
    simpl. rewrite E1. simpl. rewrite E2. exact C2. }
  destruct (f w2) as [r3 w3] eqn:E3. simpl.
  exists 3. simpl. rewrite E1. simpl. rewrite E2. simpl. rewrite E3.
  destruct r3 as [e3|]; [destruct (strings.Contains (Error e3) "etcdserver:")|];
    repeat split; intros; try lia; apply A2; lia.
Qed.

End retry_facts.

Example retry_until_success :
  release.retryOnEtcdError (release.counting scripted)
    (0, [Some leaderChanged; Some leaderChanged; None; Some notFound])
  = (None, (3, [Some notFound])).
Proof. reflexivity. Qed.

Example retry_gives_up :
  release.retryOnEtcdError (release.counting scripted)
    (0, [Some leaderChanged; Some leaderChanged; Some leaderChanged; None])
  = (Some leaderChanged, (3, [None])).
Proof. reflexivity. Qed.

Example retry_other_error :
  release.retryOnEtcdError (release.counting scripted)
    (0, [Some leaderChanged; Some notFound; None])
  = (Some notFound, (2, [None])).
Proof. reflexivity. Qed.

(** ** [readYamlFile] *)

Lemma emptyYAML_bytes :
  list_byte_of_string main.emptyYAML = [Byte.x7b; Byte.x7d; Byte.x0a].
Proof. reflexivity. Qed.

(** C4.  [readYamlFile] returns the empty byte string and no error when the
    file does not exist and when its content is exactly an opening brace, a
    closing brace and a line feed; it returns any other content unchanged.
    An empty state document put in front of the user configuration, as [main]
    does, leaves the configuration as it is. *)
Theorem readYamlFile_spec (fs : os.FileSystem) (file : string) :
  (fs !! file = None -> main.readYamlFile fs file = Ok []) /\
  (forall c, fs !! file = Some (Ok c) ->
             string_of_list_byte c = main.emptyYAML ->
             main.readYamlFile fs file = Ok []) /\
  (forall c, fs !! file = Some (Ok c) ->
             string_of_list_byte c <> main.emptyYAML ->
             main.readYamlFile fs file = Ok c) /\
  (forall config, main.mergedDocument [] config = config).
Proof.
  unfold main.readYamlFile, os.Stat, os.ReadFile.
  repeat split.
  - intros ->. reflexivity.
  - intros c -> Hc. simpl. rewrite Hc. reflexivity.
  - intros c -> Hc. simpl.
    destruct (String.eqb_spec (string_of_list_byte c) main.emptyYAML);
      [contradiction | reflexivity].
  - intros config. unfold main.mergedDocument.
    change (string_of_list_byte [] +:+ string_of_list_byte config)
      with (string_of_list_byte config).
    apply list_byte_of_string_of_list_byte.
Qed.

(** A read error of an existing file is returned as it is. *)
Lemma readYamlFile_unreadable (fs : os.FileSystem) (file : string) (e : error) :
  fs !! file = Some (Err e) -> main.readYamlFile fs file = Err e.
Proof.
  intros H. unfold main.readYamlFile, os.Stat, os.ReadFile. now rewrite H.
Qed.

Example readYamlFile_missing :
  main.readYamlFile ∅ "state.yaml" = Ok [].
Proof. reflexivity. Qed.

Example readYamlFile_empty_document :
  main.readYamlFile {[ "state.yaml" := Ok [Byte.x7b; Byte.x7d; Byte.x0a] ]} "state.yaml"
  = Ok [].
Proof. vm_compute. reflexivity. Qed.

Example readYamlFile_other_document :
  main.readYamlFile {[ "state.yaml" := Ok [Byte.x7b; Byte.x7d] ]} "state.yaml"
  = Ok [Byte.x7b; Byte.x7d].
Proof. vm_compute. reflexivity. Qed.

(** ** The Docker runtime *)

(** ** Image references *)

Section image_facts.

Import docker.

Lemma append_assoc (x y z : string) : (x +:+ y) +:+ z = x +:+ (y +:+ z).
Proof.
  induction x as [|a x IH]; [reflexivity|].
  change (String a ((x +:+ y) +:+ z) = String a (x +:+ (y +:+ z))).
  now rewrite IH.
Qed.

Lemma cutLast_None_app (c : ascii) (s t : string) :
  cutLast c t = None ->
  cutLast c (s +:+ String c t) = Some (s, t).
Proof.
  intros Ht. induction s as [|a s IH]; simpl.
  - now rewrite Ht, Ascii.eqb_refl.
  - now rewrite IH.
Qed.

Lemma cutLast_app_free (c : ascii) (s t : string) :
  cutLast c t = None ->
  cutLast c (s +:+ t)
  = match cutLast c s with
    | Some (before, after) => Some (before, after +:+ t)
    | None => None
    end.
Proof.
  intros Ht. induction s as [|a s IH]; simpl.
  - exact Ht.
  - rewrite IH. destruct (cutLast c s) as [[before after]|]; [reflexivity|].
    now destruct (Ascii.eqb a c).
Qed.

Lemma cutLast_Some (c : ascii) (s before after : string) :
  cutLast c s = Some (before, after) -> s = before +:+ String c after.
Proof.
  revert before. induction s as [|a s IH]; intros before; simpl; [discriminate|].
  destruct (cutLast c s) as [[b' a']|].
  - intros [= <- <-]. simpl. now rewrite (IH b' eq_refl).
  - destruct (Ascii.eqb_spec a c) as [->|_]; [|discriminate].
    now intros [= <- <-].
Qed.

Lemma isDigest_latest (d : string) : isDigest (d +:+ ":latest") = false.
Proof. unfold isDigest. now rewrite (cutLast_None_app ":" d "latest"). Qed.

(** A tag that was appended is the tag the reference carries, whatever the
    reference was. *)
Lemma referenceTag_latest (image : string) :
  referenceTag (image +:+ ":latest") = Some "latest".
Proof.
  unfold referenceTag.
  rewrite (cutLast_app_free "@" image ":latest") by reflexivity.
  destruct (cutLast "@" image) as [[name d]|];
    [rewrite isDigest_latest|];
    unfold nameTag; now rewrite (cutLast_None_app ":" image "latest").
Qed.

Lemma cutLast_no_colon (s : string) :
  strings.Contains s ":" = false -> cutLast ":" s = None.
Proof.
  induction s as [|a s IH]; [reflexivity|].
  change (strings.Contains (String a s) ":")
    with ((if Ascii.eqb ":" a then true else false) || strings.Contains s ":").
  rewrite orb_false_iff. intros [Ha Hs].
  change (cutLast ":" (String a s))
    with (match cutLast ":" s with
          | Some (before, after) => Some (String a before, after)
          | None => if Ascii.eqb a ":" then Some (EmptyString, s) else None
          end).
  rewrite (IH Hs), Ascii.eqb_sym.
  now destruct (Ascii.eqb ":" a).
Qed.

(** A reference in which no colon occurs carries no tag. *)
Lemma referenceTag_no_colon (image : string) :
  strings.Contains image ":" = false -> referenceTag image = None.
Proof.
  intros H. unfold referenceTag, nameTag.
  rewrite (cutLast_no_colon image H).
  destruct (cutLast "@" image) as [[name d]|] eqn:E; [|reflexivity].
  destruct (isDigest d); [|reflexivity].
  rewrite cutLast_no_colon; [reflexivity|].
  apply cutLast_Some in E. subst image.
  destruct (strings.Contains name ":") eqn:Hn; [|reflexivity].
  rewrite <- H. apply Contains_spec in Hn as (before & rest & ->).
  symmetry. apply Contains_spec. exists before, (rest +:+ String "@" d).
  now rewrite !append_assoc.
Qed.

(** C8.  [sanitizeImageName] returns a reference that carries no tag with
    [:latest] appended, and a reference that carries a tag unchanged.  What
    it returns always carries a tag, so [sanitizeImageName] is idempotent.  A
    colon need not introduce a tag: the reference [localhost:5000/foo], whose
    colon is the one of a port, and the reference [foo@sha256:abcd], whose
    colon is the one of a digest, carry none and get [:latest] appended,
    while a reference without any colon never carries a tag. *)
Theorem sanitizeImageName_spec (image : string) :
  (docker.referenceTag image = None ->
   docker.sanitizeImageName image = image +:+ ":latest") /\
  (forall tag, docker.referenceTag image = Some tag ->
     docker.sanitizeImageName image = image) /\
  is_Some (docker.referenceTag (docker.sanitizeImageName image)) /\
  (docker.sanitizeImageName (docker.sanitizeImageName image)
   = docker.sanitizeImageName image) /\
  (strings.Contains image ":" = false ->
   docker.sanitizeImageName image = image +:+ ":latest") /\
  (docker.sanitizeImageName "localhost:5000/foo" = "localhost:5000/foo:latest") /\
  (docker.sanitizeImageName "foo@sha256:abcd" = "foo@sha256:abcd:latest") /\
  (docker.sanitizeImageName "foo:v1@sha256:abcd" = "foo:v1@sha256:abcd").
Proof.
  assert (Htag : is_Some (docker.referenceTag (docker.sanitizeImageName image))).
  { unfold docker.sanitizeImageName.
    destruct (docker.referenceTag image) as [t|] eqn:E.
    - rewrite E. now exists t.
    - rewrite referenceTag_latest. now eexists. }
  apply conj; [intros H; unfold docker.sanitizeImageName; now rewrite H|].
  apply conj; [intros tag H; unfold docker.sanitizeImageName; now rewrite H|].
  apply conj; [exact Htag|].
  apply conj.
  { destruct Htag as [t Ht]. unfold docker.sanitizeImageName at 1. now rewrite Ht. }
  apply conj.
  { intros H. unfold docker.sanitizeImageName.
    now rewrite (referenceTag_no_colon image H). }
  repeat split.
Qed.

End image_facts.

Example sanitizeImageName_foo : docker.sanitizeImageName "foo" = "foo:latest".
Proof. reflexivity. Qed.

Example sanitizeImageName_foo_tag :
  docker.sanitizeImageName "foo:v0.1.0" = "foo:v0.1.0".
Proof. reflexivity. Qed.

Section Read_facts.

Import types.

Variable daemon : string -> string -> docker.reply.
Variable untar : list Byte.byte -> result (list File.t).

Lemma stopsRead_dec (id p : string) :
  {docker.stopsRead daemon untar id p} + {~ docker.stopsRead daemon untar id p}.
Proof.
  unfold docker.stopsRead.
  destruct (daemon id p) as [|err|content]; [right; tauto | left; exact I |].
  destruct (untar content); [right; tauto | left; exact I].
Qed.

Lemma readPaths_all (id : string) (srcPaths : list string) :
  Forall (fun p => ~ docker.stopsRead daemon untar id p) srcPaths ->
  forall files,
    docker.readPaths daemon untar id srcPaths files
    = Ok (files ++ flat_map (docker.filesAt daemon untar id) srcPaths).
Proof.
  induction 1 as [|p rest Hp _ IH]; intros files; simpl.
  - now rewrite app_nil_r.
  - unfold docker.stopsRead in Hp. unfold docker.filesAt at 1.
    destruct (daemon id p) as [|err|content]; [apply IH | tauto |].
    destruct (untar content) as [fs|err]; [|tauto].
    rewrite IH. now rewrite <- app_assoc.
Qed.

Lemma readPaths_stops (id : string) (srcPaths : list string) :
  Exists (docker.stopsRead daemon untar id) srcPaths ->
  forall files, exists err,
    docker.readPaths daemon untar id srcPaths files = Err err.
Proof.
  induction srcPaths as [|p rest IH]; intros HE files.
  - inversion HE.
  - simpl. destruct (stopsRead_dec id p) as [Hp|Hp].
    + unfold docker.stopsRead in Hp.
      destruct (daemon id p) as [|err|content]; [tauto | eauto |].
      destruct (untar content) as [fs|err]; [tauto | eauto].
    + assert (HE' : Exists (docker.stopsRead daemon untar id) rest)
        by (inversion HE; [contradiction | assumption]).
      unfold docker.stopsRead in Hp.
      destruct (daemon id p) as [|err|content]; [now apply IH | tauto |].
      destruct (untar content) as [fs|err]; [now apply IH | tauto].
Qed.

(** C7.  A read succeeds exactly when no path asked for meets a runtime error
    or a stream that is not a TAR archive.  The files of a read that succeeds
    are those of the paths in turn; a path the daemon reports as absent
    contributes none, and every file returned carries a path that was asked
    for and that the daemon did not report as absent. *)
Theorem Read_spec (id : string) (srcPaths : list string) :
  ((exists files, docker.Read daemon untar id srcPaths = Ok files) <->
   Forall (fun p => ~ docker.stopsRead daemon untar id p) srcPaths) /\
  (forall files,
     docker.Read daemon untar id srcPaths = Ok files ->
     files = flat_map (docker.filesAt daemon untar id) srcPaths /\
     forall f, In f files ->
               In (File.Path f) srcPaths /\ daemon id (File.Path f) <> docker.Absent) /\
  (forall p, daemon id p = docker.Absent -> docker.filesAt daemon untar id p = []).
Proof.
  assert (Hok : forall files,
             docker.Read daemon untar id srcPaths = Ok files ->
             Forall (fun p => ~ docker.stopsRead daemon untar id p) srcPaths).
  { intros files H. apply Forall_Exists_neg. intros HE.
    destruct (readPaths_stops id srcPaths HE []) as [err Herr].
    unfold docker.Read in H. congruence. }
  repeat split.
  - intros [files H]. now apply Hok with files.
  - intros H. eexists. unfold docker.Read. now rewrite readPaths_all.
  - apply Hok in H as HF. unfold docker.Read in H.
    rewrite readPaths_all in H by assumption. simpl in H. congruence.
  - apply Hok in H as HF. unfold docker.Read in H.
    rewrite readPaths_all in H by assumption. simpl in H.
    injection H as <-. apply in_flat_map in H0 as (p & Hp & Hf).
    unfold docker.filesAt in Hf. destruct (daemon id p); try contradiction.
    destruct (untar content); [|contradiction].
    apply in_map_iff in Hf as (g & <- & _). exact Hp.
  - apply Hok in H as HF. unfold docker.Read in H.
    rewrite readPaths_all in H by assumption. simpl in H.
    injection H as <-. apply in_flat_map in H0 as (p & Hp & Hf).
    unfold docker.filesAt in Hf. destruct (daemon id p) eqn:E; try contradiction.
    destruct (untar content); [|contradiction].
    apply in_map_iff in Hf as (g & <- & _). simpl. congruence.
  - intros p H. unfold docker.filesAt. now rewrite H.
Qed.

End Read_facts.

Example Read_missing_file :
  docker.Read (fun _ _ => docker.Absent) (fun _ => Ok []) "foo" ["/foo"] = Ok [].
Proof. reflexivity. Qed.

Example Read_bad_archive :
  docker.Read (fun _ _ => docker.Stream [Byte.x61; Byte.x73; Byte.x64])
    (fun _ => Err (errorString "unexpected EOF")) "foo" ["/foo"]
  = Err (wrapError "extracting file /foo from archive: "
           (errorString "unexpected EOF")).
Proof. reflexivity. Qed.

(** ** Containers *)

Section container_facts.

Import types container.

Variable dockerNew : option docker_config.Config -> result runtime.Runtime.

Lemma Container_Validate_iff (c : Container) :
  (exists err, Container_Validate c = Some err) <-> invalid c.
Proof.
  unfold Container_Validate, invalid.
  destruct (String.eqb_spec (ContainerConfig.Name (Config c)) EmptyString) as [Hn|Hn].
  { split; eauto. }
  destruct (String.eqb_spec (ContainerConfig.Image (Config c)) EmptyString) as [Hi|Hi].
  { split; eauto. }
  destruct (Docker (Runtime c)) as [d|].
  - split; [intros [err H]; discriminate H | intros [H|[H|H]]; congruence].
  - split; eauto.
Qed.

Lemma Container_Validate_pass (c : Container) :
  Container_Validate c = None <-> ~ invalid c.
Proof.
  rewrite <- Container_Validate_iff.
  destruct (Container_Validate c) as [e|].
  - split; [discriminate | intros H; exfalso; apply H; eauto].
  - split; [intros _ [err H]; discriminate H | reflexivity].
Qed.

(** What [New] returns is decided by [Validate] and then by the runtime
    configuration. *)
Lemma New_cases (c : Container) :
  match Container_Validate c with
  | Some err =>
      New dockerNew c
      = Err (wrapError "container configuration validation failed: " err)
  | None =>
      match dockerNew (Docker (Runtime c)) with
      | Ok r =>
          New dockerNew c
          = Ok {| container_base :=
                    {| config := Config c;
                       runtime := Some r;
                       runtimeConfig := Docker (Runtime c) |};
                  container_status := Status c |}
      | Err e =>
          New dockerNew c
          = Err (wrapError "unable to determine container runtime: "
                   (wrapError "selecting container runtime failed: " e))
      end
  end.
Proof.
  unfold New, container_selectRuntime.
  destruct (Container_Validate c); [reflexivity|]. simpl.
  destruct (dockerNew (Docker (Runtime c))); reflexivity.
Qed.

(** C5, as the code has it.  [Validate] returns an error exactly for a
    container without name, without image or without Docker runtime, and
    [New] returns a validation error exactly then.  For a container passing
    the three checks, [New] returns the validated container when the runtime
    configuration yields a runtime, and the error of the runtime selection
    when it does not.  [New] is a function of the container alone: it calls
    no method of the runtime. *)
Theorem New_spec (c : Container) :
  ((exists err, Container_Validate c = Some err) <-> invalid c) /\
  ((exists err,
      New dockerNew c
      = Err (Errorf_w "container configuration validation failed: " err)) <->
   invalid c) /\
  (~ invalid c ->
   match dockerNew (Docker (Runtime c)) with
   | Ok r =>
       New dockerNew c
       = Ok {| container_base :=
                 {| config := Config c;
                    runtime := Some r;
                    runtimeConfig := Docker (Runtime c) |};
               container_status := Status c |}
   | Err e =>
       New dockerNew c
       = Err (Errorf_w "unable to determine container runtime: "
                (Errorf_w "selecting container runtime failed: " e))
   end).
Proof.
  pose proof (New_cases c) as HN.
  split; [apply Container_Validate_iff|]. split.
  - rewrite <- Container_Validate_iff.
    destruct (Container_Validate c) as [err|]; [split; eauto|].
    split; [|intros [err H]; discriminate H].
    intros [err H]. exfalso.
    destruct (dockerNew (Docker (Runtime c))); rewrite HN in H;
      unfold Errorf_w in H; congruence.
  - intros Hv. apply Container_Validate_pass in Hv. rewrite Hv in HN. exact HN.
Qed.

End container_facts.

Section instance_facts.

Import types container.

Variable dockerNew : option docker_config.Config -> result runtime.Runtime.

(** [ToInstance] succeeds only on a status with an id, and its instance has
    the runtime [New] selected. *)
Lemma Container_ToInstance_Ok (c : Container) (ci : containerInstance) :
  Container_ToInstance dockerNew c = Ok ci ->
  exists r s,
    Status c = Some s /\ ContainerStatus.ID s <> EmptyString /\
    runtime (instance_base ci) = Some r /\ instance_status ci = s.
Proof.
  unfold Container_ToInstance. pose proof (New_cases dockerNew c) as HN.
  destruct (Container_Validate c) as [e|]; [rewrite HN; discriminate|].
  destruct (dockerNew (Docker (Runtime c))) as [r|e]; rewrite HN; [|discriminate].
  unfold container_FromStatus. simpl.
  destruct (Status c) as [s|]; [|discriminate].
  destruct (String.eqb_spec (ContainerStatus.ID s) EmptyString) as [|Hid];
    [discriminate|].
  intros [= <-]. exists r, s. auto.
Qed.

Lemma Container_ToInstance_noInstance (c : Container) :
  noInstance c -> exists err, Container_ToInstance dockerNew c = Err err.
Proof.
  unfold noInstance, Container_ToInstance. intros H.
  pose proof (New_cases dockerNew c) as HN.
  destruct (Container_Validate c) as [e|]; [rewrite HN; eauto|].
  destruct (dockerNew (Docker (Runtime c))) as [r|e]; rewrite HN; [|eauto].
  unfold container_FromStatus. simpl.
  destruct (Status c) as [s|]; [|eauto].
  rewrite H. simpl. eauto.
Qed.

(** C9.  When [ToInstance] gives an instance, [Delete] asks the runtime to
    delete the container of the status id, once.  When the runtime answers
    without error, [Delete] returns [nil] and the status is [nil]; when it
    answers with an error, [Delete] returns that error and the container,
    status included, is as before. *)
Theorem Container_Delete_status (c : Container) (ci : containerInstance)
    (w : World) :
  Container_ToInstance dockerNew c = Ok ci ->
  exists r,
    runtime (instance_base ci) = Some r /\
    match runtime.Delete r w (instanceID ci) with
    | None =>
        Container_Delete dockerNew c w
        = (Return (None,
                   {| Config := Config c; Status := None; Runtime := Runtime c |}),
           w ++ [runtime.CallDelete (instanceID ci)])
    | Some err =>
        Container_Delete dockerNew c w
        = (Return (Some err, c), w ++ [runtime.CallDelete (instanceID ci)])
    end.
Proof.
  intros H. destruct (Container_ToInstance_Ok c ci H) as (r & s & _ & _ & Hr & _).
  exists r. split; [exact Hr|].
  unfold Container_Delete. rewrite H.
  unfold containerInstance_Delete, viaRuntime, bind, invoke, ret. rewrite Hr.
  destruct (runtime.Delete r w (instanceID ci)); reflexivity.
Qed.

(** C10.  On a container without status, or whose status has no id, every
    instance-level operation returns the error of [ToInstance], leaves the
    container as it is and calls no method of the runtime: the history of
    runtime calls is the one it started with. *)
Theorem instance_operations_need_status (c : Container) (w : World) :
  noInstance c ->
  exists err,
    Container_ToInstance dockerNew c = Err err /\
    Container_Start dockerNew c w = (Return (Some err, c), w) /\
    Container_Stop dockerNew c w = (Return (Some err, c), w) /\
    Container_Delete dockerNew c w = (Return (Some err, c), w) /\
    Container_UpdateStatus dockerNew c w = (Return (Some err, c), w) /\
    (forall srcPath,
       Container_Read dockerNew c srcPath w = (Return (Err err), w)) /\
    (forall dstPath content,
       Container_Copy dockerNew c dstPath content w = (Return (Some err), w)) /\
    (forall path,
       Container_Stat dockerNew c path w = (Return (Err err), w)).
Proof.
  intros H. destruct (Container_ToInstance_noInstance c H) as [err He].
  exists err.
  unfold Container_Start, Container_Stop, Container_Delete,
    Container_UpdateStatus, Container_Read, Container_Copy, Container_Stat.
  rewrite He. repeat split.
Qed.

End instance_facts.

(** C5, the claim as stated fails: this container passes the three checks,
    and [New] returns an error, because the runtime cannot be selected. *)
Lemma New_runtime_selection_fails :
  container.Container_Validate (fooContainer None) = None /\
  container.New failingDocker (fooContainer None)
  = Err (wrapError "unable to determine container runtime: "
           (wrapError "selecting container runtime failed: "
              (errorString "unable to parse docker host"))).
Proof. split; reflexivity. Qed.

Lemma Container_Delete_status_witness :
  exists ci r,
    container.Container_ToInstance obligingDocker (fooContainer (Some (fooStatus "abc")))
    = Ok ci /\
    container.runtime (container.instance_base ci) = Some r /\
    container.Container_Delete obligingDocker (fooContainer (Some (fooStatus "abc"))) []
    = (Return (None, fooContainer None), [runtime.CallDelete "abc"]).
Proof.
  eexists. 
  destruct (Container_Delete_status obligingDocker
              (fooContainer (Some (fooStatus "abc"))) _ [] eq_refl)
    as [r [Hr Hd]].
  exists r. split; [reflexivity|]. split; [exact Hr|].
  simpl in Hr. injection Hr as <-. exact Hd.
Defined.

Lemma instance_operations_need_status_witness :
  container.noInstance (fooContainer (Some (fooStatus EmptyString))) /\
  exists err,
    container.Container_Start obligingDocker
      (fooContainer (Some (fooStatus EmptyString))) []
    = (Return (Some err, fooContainer (Some (fooStatus EmptyString))), []).
Proof.
  split; [reflexivity|].
  destruct (instance_operations_need_status obligingDocker
              (fooContainer (Some (fooStatus EmptyString))) [] eq_refl)
    as [err (_ & Hs & _)].
  exists err. exact Hs.
Defined.

(** ** Iteration over maps *)

Section gomap_facts.

Context {A : Type}.

Lemma insertAt_Permutation (n : nat) (x : A) (l : list A) :
  gomap.insertAt n x l ≡ₚ x :: l.
Proof.
  revert n. induction l as [|y l IH]; intros [|n]; simpl; try reflexivity.
  rewrite IH. apply Permutation_swap.
Qed.

Lemma shuffle_Permutation (seed : list nat) (l : list A) :
  gomap.shuffle seed l ≡ₚ l.
Proof.
  revert seed. induction l as [|x l IH]; intros seed; simpl; [reflexivity|].
  destruct seed as [|n seed].
  - now rewrite IH.
  - now rewrite insertAt_Permutation, IH.
Qed.

Lemma insertAt_middle (x : A) (l1 l2 : list A) :
  gomap.insertAt (length l1) x (l1 ++ l2) = l1 ++ x :: l2.
Proof.
  induction l1 as [|y l1 IH]; simpl.
  - now destruct l2.
  - now rewrite IH.
Qed.

(** Every order of the entries is the order of some seed. *)
Lemma shuffle_complete (l l' : list A) :
  l' ≡ₚ l -> exists seed, gomap.shuffle seed l = l'.
Proof.
  revert l'. induction l as [|x l IH]; intros l' HP.
  - apply Permutation_nil_r in HP as ->. now exists [].
  - assert (Hx : x ∈ l') by (rewrite HP; left).
    apply list_elem_of_split in Hx as (l1 & l2 & ->).
    symmetry in HP. apply Permutation_cons_app_inv in HP. symmetry in HP.
    destruct (IH (l1 ++ l2) HP) as [seed Hs].
    exists (length l1 :: seed). simpl. rewrite Hs. apply insertAt_middle.
Qed.

End gomap_facts.

Lemma range_Permutation {V : Type} (seed : list nat) (m : gmap string V) :
  gomap.range seed m ≡ₚ map_to_list m.
Proof. apply shuffle_Permutation. Qed.

Lemma elem_of_range {V : Type} (seed : list nat) (m : gmap string V)
    (k : string) (v : V) :
  (k, v) ∈ gomap.range seed m <-> m !! k = Some v.
Proof. rewrite range_Permutation. apply elem_of_map_to_list. Qed.

Lemma NoDup_range_keys {V : Type} (seed : list nat) (m : gmap string V) :
  NoDup (gomap.range seed m).*1.
Proof. rewrite range_Permutation. apply NoDup_fst_map_to_list. Qed.

(** ** [sort.Strings] *)

Lemma Strings_Sorted (a : list string) : StronglySorted String.le (strings.Strings a).
Proof. apply StronglySorted_merge_sort; apply _. Qed.

Lemma Strings_Permutation (a : list string) : strings.Strings a ≡ₚ a.
Proof. apply merge_sort_Permutation. Qed.

Lemma Strings_order_free (a b : list string) :
  a ≡ₚ b -> strings.Strings a = strings.Strings b.
Proof.
  intros H. apply (StronglySorted_unique String.le); try apply Strings_Sorted.
  now rewrite !Strings_Permutation.
Qed.

(** ** [propagateMember] *)

Lemma PickString_set (a b : string) :
  a <> EmptyString -> util.PickString [a; b] = a.
Proof.
  intros H. simpl. now destruct (String.eqb_spec a EmptyString).
Qed.

Lemma PickString_default (a b : string) :
  a = EmptyString -> util.PickString [a; b] = b.
Proof.
  intros ->. simpl. now destruct (String.eqb_spec b EmptyString).
Qed.

Section propagateMember_facts.

Context {directConfig sshConfig HostConfiguredContainer : Type}.

Local Abbreviation host := (etcd.Host directConfig sshConfig).
Local Abbreviation Cluster :=
  (etcd.Cluster directConfig sshConfig HostConfiguredContainer).
Local Abbreviation clusterEntry := (@etcd.clusterEntry directConfig sshConfig).
Local Abbreviation initialClusterEntries :=
  (@etcd.initialClusterEntries directConfig sshConfig).

Variable BuildConfig : host -> host -> host.

Lemma foldl_appendMember (l : list (string * etcd.Member host))
    (a b : list string) :
  foldl etcd.appendMember (a, b) l
  = (a ++ (clusterEntry <$> l), b ++ ((fun e => etcd.memberName e.1) <$> l)).
Proof.
  revert a b. induction l as [|[n m] l IH]; intros a b; simpl.
  - now rewrite !app_nil_r.
  - rewrite IH. now rewrite <- !app_assoc.
Qed.

Lemma propagateMember_InitialCluster (seed : list nat) (c : Cluster)
    (i : string) (m : etcd.Member host) :
  etcd.InitialCluster (etcd.propagateMember BuildConfig seed c i m)
  = util.PickString
      [etcd.InitialCluster m;
       strings.Join (strings.Strings (initialClusterEntries (etcd.Members c))) ","].
Proof.
  assert (HS : strings.Strings (clusterEntry <$> gomap.range seed (etcd.Members c))
               = strings.Strings (initialClusterEntries (etcd.Members c))).
  { apply Strings_order_free. unfold initialClusterEntries.
    apply fmap_Permutation, range_Permutation. }
  unfold etcd.propagateMember. rewrite foldl_appendMember. simpl.
  now rewrite HS.
Qed.

Lemma elem_of_initialClusterEntries (M : gmap string (etcd.Member host))
    (e : string) :
  e ∈ strings.Strings (initialClusterEntries M) <->
  exists n m, M !! n = Some m /\ e = etcd.peerEntry (etcd.memberName n) (etcd.PeerAddress m).
Proof.
  rewrite Strings_Permutation. unfold initialClusterEntries.
  rewrite list_elem_of_fmap. split.
  - intros ([n m] & -> & H). apply elem_of_map_to_list in H. now exists n, m.
  - intros (n & m & H & ->). exists (n, m). split; [reflexivity|].
    now apply elem_of_map_to_list.
Qed.

(** C3.  For a key [k] of the member map, whatever the order in which the map
    is walked: a member without name gets the name [etcd-k]; a member without
    initial cluster gets the entries [etcd-n=https://peerAddress:2380] of all
    keys [n] of the map, sorted and joined by commas.  The sorted list has one
    entry per key, its entries are those of the members of the map and no
    others, and the entry of [k] itself is among them. *)
Theorem propagateMember_defaults (seed : list nat) (c : Cluster) (k : string)
    (m mk : etcd.Member host) :
  etcd.Members c !! k = Some mk ->
  let entries := strings.Strings (initialClusterEntries (etcd.Members c)) in
  (etcd.Name m = EmptyString ->
   etcd.Name (etcd.propagateMember BuildConfig seed c k m) = "etcd-" +:+ k) /\
  (etcd.InitialCluster m = EmptyString ->
   etcd.InitialCluster (etcd.propagateMember BuildConfig seed c k m)
   = strings.Join entries ",") /\
  StronglySorted String.le entries /\
  length entries = size (etcd.Members c) /\
  (forall e, e ∈ entries <->
     exists n mn, etcd.Members c !! n = Some mn /\
       e = "etcd-" +:+ n +:+ "=https://" +:+ etcd.PeerAddress mn +:+ ":2380") /\
  "etcd-" +:+ k +:+ "=https://" +:+ etcd.PeerAddress mk +:+ ":2380" ∈ entries.
Proof.
  intros Hk entries.
  assert (Hin : forall e, e ∈ entries <->
     exists n mn, etcd.Members c !! n = Some mn /\
       e = "etcd-" +:+ n +:+ "=https://" +:+ etcd.PeerAddress mn +:+ ":2380").
  { intros e. unfold entries. rewrite elem_of_initialClusterEntries.
    split; intros (n & mn & H & ->); exists n, mn; split; auto. }
  repeat split.
  - intros Hn. unfold etcd.propagateMember.
    destruct (foldl _ _ _). simpl. now rewrite Hn.
  - intros Hi. rewrite propagateMember_InitialCluster.
    now apply PickString_default.
  - apply Strings_Sorted.
  - unfold entries. rewrite Strings_Permutation. unfold initialClusterEntries.
    rewrite length_fmap. apply length_map_to_list.
  - apply Hin.
  - apply Hin.
  - apply Hin. now exists k, mk.
Qed.

End propagateMember_facts.

(** ** Error chains *)

Lemma Is_refl (e : error) : Is e e.
Proof. destruct e; simpl; auto. Qed.

Lemma Is_wrap (prefix : string) (e target : error) :
  Is e target -> Is (wrapError prefix e) target.
Proof. simpl. auto. Qed.

#[local] Hint Resolve Is_refl Is_wrap : core.

(** ** [cluster.Deploy] *)

Section deploy_facts.

Context {sshConfig HostConfiguredContainer : Type}.

Import etcd.

Local Abbreviation Env := (etcd.Env HostConfiguredContainer).
Local Abbreviation cluster := (etcd.cluster sshConfig HostConfiguredContainer).

Lemma firstFailure_app (env : Env) (h a b : World) :
  firstFailure env h (a ++ b)
  = match firstFailure env h a with
    | Some err => Some err
    | None => firstFailure env (h ++ a) b
    end.
Proof.
  revert h. induction a as [|e a IH]; intros h; simpl.
  - now rewrite app_nil_r.
  - destruct (answerOf env h e); [reflexivity|].
    rewrite IH. now rewrite <- app_assoc.
Qed.

Lemma removeMembers_run (env : Env) (cli : etcdClient) (names : list string)
    (w : World) :
  exists done,
    done `prefix_of` names /\
    removeMembers env cli names w
    = (Return (wrapError "failed removing member: "
                 <$> firstFailure env w (map MemberRemove done)),
       w ++ map MemberRemove done) /\
    (firstFailure env w (map MemberRemove done) = None -> done = names).
Proof.
  revert w. induction names as [|n rest IH]; intros w.
  - exists []. simpl. rewrite app_nil_r. repeat split. reflexivity.
  - simpl. unfold bind, member_remove, invoke. simpl.
    destruct (removeAnswer env w n) as [err|] eqn:E.
    + exists [n]. simpl. rewrite E. repeat split; [|discriminate].
      now apply prefix_cons, prefix_nil.
    + destruct (IH (w ++ [MemberRemove n])) as (done & Hp & Hr & Hall).
      exists (n :: done). simpl. rewrite E, Hr, <- app_assoc. repeat split.
      * now apply prefix_cons.
      * intros H. now rewrite Hall.
Qed.

Lemma addMembers_run (env : Env) (c : cluster) (cli : etcdClient)
    (keys : list string) (w : World) :
  exists done ms,
    done `prefix_of` keys /\
    Forall2 (fun k m => members c !! k = Some m) done ms /\
    ((addMembers env c cli keys w
      = (Return (wrapError "failed adding member: "
                   <$> firstFailure env w (map MemberAdd ms)),
         w ++ map MemberAdd ms) /\
      (firstFailure env w (map MemberAdd ms) = None -> done = keys)) \/
     (addMembers env c cli keys w = (Panic, w ++ map MemberAdd ms) /\
      firstFailure env w (map MemberAdd ms) = None)).
Proof.
  revert w. induction keys as [|k rest IH]; intros w.
  - exists [], []. simpl. rewrite app_nil_r.
    split; [reflexivity|]. split; [constructor|]. left. split; reflexivity.
  - simpl. unfold bind, member_add.
    destruct (members c !! k) as [m|] eqn:Em.
    + unfold invoke. destruct (addAnswer env w m) as [err|] eqn:E.
      * exists [k], [m]. simpl. rewrite E.
        split; [now apply prefix_cons, prefix_nil|].
        split; [now repeat constructor|]. left. split; [reflexivity|discriminate].
      * destruct (IH (w ++ [MemberAdd m])) as (done & ms & Hp & HF & Hr).
        exists (k :: done), (m :: ms).
        split; [now apply prefix_cons|]. split; [now constructor|].
        destruct Hr as [[Hr Hall] | [Hr Hnone]]; [left | right];
          simpl; rewrite E, Hr, <- app_assoc.
        -- split; [reflexivity|]. intros H. now rewrite Hall.
        -- split; [reflexivity | exact Hnone].
    + exists [], []. simpl. rewrite app_nil_r.
      split; [apply prefix_nil|]. split; [constructor|]. right. split; reflexivity.
Qed.

Lemma absentKeys_spec {V : Type} (D : gmap string V) (l : list (string * V))
    (acc : list string) :
  let r :=
    foldl (fun m '(i, _) =>
             match D !! i with
             | None => m ++ [i]
             | Some _ => m
             end) acc l in
  (forall k, k ∈ r <-> k ∈ acc \/ (k ∈ l.*1 /\ D !! k = None)) /\
  (NoDup (acc ++ l.*1) -> NoDup r).
Proof.
  revert acc. induction l as [|[i v] l IH]; intros acc; simpl.
  - split; [|now rewrite app_nil_r].
    intros k. rewrite elem_of_nil. tauto.
  - destruct (IH (match D !! i with None => acc ++ [i] | Some _ => acc end))
      as [Hin Hnd].
    split.
    + intros k. rewrite Hin, elem_of_cons.
      destruct (D !! i) eqn:E.
      * split; [tauto|]. intros [H|[[->|H] H']]; [tauto|congruence|tauto].
      * rewrite elem_of_app, list_elem_of_singleton.
        split; [intros [[H| ->]|[H H']]; tauto | tauto].
    + intros H. apply Hnd. destruct (D !! i).
      * rewrite NoDup_app in H |- *. destruct H as (H1 & H2 & H3).
        apply NoDup_cons in H3 as [_ H3]. repeat split; [assumption| |assumption].
        intros x Hx Hx'. apply (H2 x Hx). now right.
      * now rewrite <- app_assoc.
Qed.

Lemma membersToRemove_spec (seed : list nat) (c : cluster) :
  NoDup (membersToRemove seed c) /\
  forall k, k ∈ membersToRemove seed c <->
            is_Some (PreviousState (containers c) !! k) /\
            DesiredState (containers c) !! k = None.
Proof.
  unfold membersToRemove.
  destruct (absentKeys_spec (DesiredState (containers c))
              (gomap.range seed (PreviousState (containers c))) []) as [Hin Hnd].
  split; [apply Hnd, NoDup_range_keys|].
  intros k. rewrite Hin, elem_of_nil, list_elem_of_fmap.
  split.
  - intros [[]|[([k' v] & -> & H) Hd]]. apply elem_of_range in H. eauto.
  - intros [[v H] Hd]. right. split; [|exact Hd].
    exists (k, v). split; [reflexivity|]. now apply elem_of_range.
Qed.

Lemma membersToAdd_spec (seed : list nat) (c : cluster) :
  NoDup (membersToAdd seed c) /\
  forall k, k ∈ membersToAdd seed c <->
            is_Some (DesiredState (containers c) !! k) /\
            PreviousState (containers c) !! k = None.
Proof.
  unfold membersToAdd.
  destruct (absentKeys_spec (PreviousState (containers c))
              (gomap.range seed (DesiredState (containers c))) []) as [Hin Hnd].
  split; [apply Hnd, NoDup_range_keys|].
  intros k. rewrite Hin, elem_of_nil, list_elem_of_fmap.
  split.
  - intros [[]|[([k' v] & -> & H) Hd]]. apply elem_of_range in H. eauto.
  - intros [[v H] Hd]. right. split; [|exact Hd].
    exists (k, v). split; [reflexivity|]. now apply elem_of_range.
Qed.

(** What [updateMembers] leaves behind: removals, then additions, and an
    outcome that goes with the first error answered. *)
Lemma updateMembers_run (env : Env) (c : cluster) (cli : etcdClient) (w : World) :
  exists removed addedKeys added,
    removed `prefix_of` membersToRemove (seedRemove env) c /\
    addedKeys `prefix_of` membersToAdd (seedAdd env) c /\
    Forall2 (fun k m => members c !! k = Some m) addedKeys added /\
    (added <> [] -> removed = membersToRemove (seedRemove env) c) /\
    let evs := map MemberRemove removed ++ map MemberAdd added in
    ((exists ee err,
        firstFailure env w evs = Some ee /\ Is err ee /\
        updateMembers env c cli w = (Return (Some err), w ++ evs)) \/
     (firstFailure env w evs = None /\
      removed = membersToRemove (seedRemove env) c /\
      addedKeys = membersToAdd (seedAdd env) c /\
      updateMembers env c cli w = (Return None, w ++ evs)) \/
     (firstFailure env w evs = None /\
      updateMembers env c cli w = (Panic, w ++ evs))).
Proof.
  unfold updateMembers, bind.
  destruct (removeMembers_run env cli (membersToRemove (seedRemove env) c) w)
    as (removed & Hp & Hr & Hall).
  rewrite Hr.
  destruct (firstFailure env w (map MemberRemove removed)) as [ee|] eqn:E; simpl.
  - exists removed, [], []. simpl. rewrite app_nil_r.
    split; [exact Hp|]. split; [apply prefix_nil|]. split; [constructor|].
    split; [congruence|]. left. exists ee, (wrapError "failed removing member: " ee).
    split; [exact E|]. split; [auto | reflexivity].
  - specialize (Hall eq_refl). subst removed.
    destruct (addMembers_run env c cli (membersToAdd (seedAdd env) c)
                (w ++ map MemberRemove (membersToRemove (seedRemove env) c)))
      as (addedKeys & added & Hpa & HF & Ha).
    exists (membersToRemove (seedRemove env) c), addedKeys, added.
    split; [reflexivity|]. split; [exact Hpa|]. split; [exact HF|].
    split; [reflexivity|]. simpl.
    rewrite firstFailure_app, E, app_assoc.
    destruct Ha as [[Ha Halla] | [Ha Hnone]]; rewrite Ha.
    + destruct (firstFailure env _ (map MemberAdd added)) as [ee|] eqn:E2; simpl.
      * left. exists ee, (wrapError "failed adding member: " ee).
        split; [reflexivity|]. split; [auto | reflexivity].
      * right. left. rewrite Halla by reflexivity. auto.
    + right. right. auto.
Qed.

(** What [getClient] leaves behind. *)
Lemma getClient_run (env : Env) (c : cluster) (w : World) :
  exists dial,
    Forall (fun e => phase e = 0) dial /\
    ((exists cli,
        firstFailure env w dial = None /\
        getClient env c w = (Return (Ok cli), w ++ dial)) \/
     (exists ee err,
        firstFailure env w dial = Some ee /\ Is err ee /\
        getClient env c w = (Return (Err err), w ++ dial)) \/
     (exists e0 err,
        firstMember (seedFirst env) c = Err e0 /\ Is err e0 /\ dial = [] /\
        getClient env c w = (Return (Err err), w))) /\
    (forall e0, firstMember (seedFirst env) c = Err e0 ->
       dial = [] /\
       getClient env c w
       = (Return (Err (wrapError "failed getting member object: " e0)), w)).
Proof.
  unfold getClient.
  destruct (firstMember (seedFirst env) c) as [m|e0] eqn:Ef.
  - unfold bind, member_forwardEndpoints, member_getEtcdClient, invoke, ret.
    set (eps := getExistingEndpoints (seedEndpoints env) c).
    destruct (forwardAnswer env w m eps) as [eps'|ee] eqn:E1.
    + exists [ForwardEndpoints m eps; GetEtcdClient m eps'].
      split; [repeat constructor|]. split; [|discriminate].
      simpl. rewrite E1, <- app_assoc. simpl.
      destruct (clientAnswer env (w ++ [ForwardEndpoints m eps]) m eps') as [ee|].
      * right. left. exists ee, ee. repeat split. auto.
      * left. eexists. split; reflexivity.
    + exists [ForwardEndpoints m eps]. split; [repeat constructor|].
      split; [|discriminate]. right. left.
      exists ee, (wrapError "failed forwarding endpoints: " ee).
      simpl. rewrite E1. repeat split. auto.
  - exists []. split; [constructor|]. split.
    + right. right. exists e0, (wrapError "failed getting member object: " e0).
      repeat split. auto.
    + intros e [= <-]. split; reflexivity.
Qed.

Lemma Deploy_unfold (env : Env) (c : cluster) (w : World) :
  Deploy env c w
  = if gate c then
      match getClient env c w with
      | (Return (Err err), w1) =>
          (Return (Some (wrapError "failed getting etcd client: " err), c), w1)
      | (Return (Ok cli), w1) =>
          match updateMembers env c cli w1 with
          | (Return (Some err), w2) =>
              (Return
                 (Some (wrapError "failed to update members before deploying: " err),
                  c),
               w2 ++ [Close])
          | (Return None, w2) =>
              let '(r, w3) := Containers_Deploy env c w2 in (r, w3 ++ [Close])
          | (Panic, w2) => (Panic, w2 ++ [Close])
          end
      | (Panic, w1) => (Panic, w1)
      end
    else Containers_Deploy env c w.
Proof.
  unfold Deploy, gate.
  destruct (negb _ && negb _); [|reflexivity].
  unfold bind at 1. destruct (getClient env c w) as [[[cli|err]|] w1]; try reflexivity.
  unfold defer, bind, etcdClient_Close, invoke, ret.
  destruct (updateMembers env c cli w1) as [[[err|]|] w2]; reflexivity.
Qed.

Lemma firstFailure_engine (env : Env) (h : World) (ops : list lifecycle)
    (closing : list event) :
  closing = [] \/ closing = [Close] ->
  firstFailure env h (map ContainerOp ops ++ closing) = None.
Proof.
  intros Hc. revert h. induction ops as [|op ops IH]; intros h; simpl.
  - destruct Hc as [-> | ->]; reflexivity.
  - apply IH.
Qed.

Lemma Containers_Deploy_run (env : Env) (c : cluster) (w : World) :
  exists r ops,
    Containers_Deploy env c w = (Return r, w ++ map ContainerOp ops).
Proof.
  unfold Containers_Deploy.
  destruct (engine env w (containers c)) as [[ops err] previous]. eauto.
Qed.

(** The events of one [Deploy], and how its outcome goes with them. *)
Lemma Deploy_run (env : Env) (c : cluster) (w : World) :
  exists r dial removed addedKeys added ops closing,
    let evs :=
      dial ++ map MemberRemove removed ++ map MemberAdd added
      ++ map ContainerOp ops ++ closing in
    Deploy env c w = (r, w ++ evs) /\
    Forall (fun e => phase e = 0) dial /\
    removed `prefix_of` membersToRemove (seedRemove env) c /\
    addedKeys `prefix_of` membersToAdd (seedAdd env) c /\
    Forall2 (fun k m => members c !! k = Some m) addedKeys added /\
    (closing = [] \/ closing = [Close]) /\
    (gate c = false -> dial = [] /\ removed = [] /\ added = [] /\ closing = []) /\
    (added <> [] -> removed = membersToRemove (seedRemove env) c) /\
    (ops <> [] -> gate c = true ->
     removed = membersToRemove (seedRemove env) c /\
     addedKeys = membersToAdd (seedAdd env) c) /\
    (forall ee, firstFailure env w evs = Some ee ->
       ops = [] /\ exists err, r = Return (Some err, c) /\ Is err ee) /\
    (forall e0, gate c = true -> firstMember (seedFirst env) c = Err e0 ->
       evs = [] /\ exists err, r = Return (Some err, c) /\ Is err e0) /\
    (firstFailure env w evs = None -> r <> Panic -> gate c = true ->
     is_Some (firstMember_ok (seedFirst env) c) ->
     removed = membersToRemove (seedRemove env) c /\
     addedKeys = membersToAdd (seedAdd env) c /\ closing = [Close]).
Proof.
  rewrite Deploy_unfold. destruct (gate c) eqn:G.
  2:{ destruct (Containers_Deploy_run env c w) as (r & ops & Hd).
      exists (Return r), [], [], [], [], ops, []. simpl.
      pose proof (firstFailure_engine env w ops [] (or_introl eq_refl)) as HF.
      rewrite app_nil_r in HF. rewrite app_nil_r, Hd, HF.
      apply conj; [reflexivity|]. apply conj; [constructor|].
      apply conj; [apply prefix_nil|]. apply conj; [apply prefix_nil|].
      apply conj; [constructor|].
      repeat (apply conj; [solve [auto | congruence]|]). congruence. }
  destruct (getClient_run env c w) as (dial & Hdial & Hcases & Hfirst).
  destruct Hcases as [(cli & Hnone & Hg) | [(ee & err & Hsome & His & Hg)
                                          | (e0 & err & Hf & His & -> & Hg)]];
    rewrite Hg.
  - (* the client is there *)
    assert (Hnf : forall e0, firstMember (seedFirst env) c = Err e0 -> False).
    { intros e0 H. apply Hfirst in H as [_ H]. congruence. }
    destruct (updateMembers_run env c cli (w ++ dial))
      as (removed & addedKeys & added & Hp & Hpa & HF & Hord & Hu).
    simpl in Hu.
    assert (Hff : forall tail,
               firstFailure env w
                 (dial ++ map MemberRemove removed ++ map MemberAdd added ++ tail)
               = match firstFailure env (w ++ dial)
                         (map MemberRemove removed ++ map MemberAdd added) with
                 | Some e => Some e
                 | None =>
                     firstFailure env
                       ((w ++ dial)
                        ++ map MemberRemove removed ++ map MemberAdd added) tail
                 end).
    { intros tail. rewrite firstFailure_app, Hnone.
      rewrite (app_assoc (map MemberRemove removed)). apply firstFailure_app. }
    destruct Hu as [(ee & err & Hsome & His & Hu)
                   | [(Hnone' & -> & -> & Hu) | (Hnone' & Hu)]]; rewrite Hu.
    + exists (Return (Some (wrapError "failed to update members before deploying: " err), c)),
        dial, removed, addedKeys, added, [], [Close].
      simpl. rewrite Hff, Hsome.
      apply conj; [now rewrite <- !app_assoc|].
      repeat (apply conj; [solve [auto | congruence]|]).
      apply conj; [intros ? [= <-]; eauto|].
      apply conj; [intros e0 _ H; destruct (Hnf e0 H) | congruence].
    + destruct (Containers_Deploy_run env c
                  ((w ++ dial)
                   ++ map MemberRemove (membersToRemove (seedRemove env) c)
                   ++ map MemberAdd added)) as (r & ops & Hd).
      rewrite Hd.
      exists (Return r), dial, (membersToRemove (seedRemove env) c),
        (membersToAdd (seedAdd env) c), added, ops, [Close].
      simpl. rewrite Hff, Hnone', firstFailure_engine by auto.
      apply conj; [now rewrite <- !app_assoc|].
      repeat (apply conj; [solve [auto | congruence]|]).
      auto.
    + exists Panic, dial, removed, addedKeys, added, [], [Close].
      simpl. rewrite Hff, Hnone'. simpl.
      apply conj; [now rewrite <- !app_assoc|].
      repeat (apply conj; [solve [auto | congruence]|]).
      intros _ H. now destruct H.
  - (* the transport or the dial failed *)
    assert (Hnf : forall e0, firstMember (seedFirst env) c = Err e0 -> False).
    { intros e0 H. apply Hfirst in H as [-> _]. discriminate Hsome. }
    exists (Return (Some (wrapError "failed getting etcd client: " err), c)),
      dial, [], [], [], [], [].
    simpl. rewrite app_nil_r, Hsome.
    apply conj; [reflexivity|]. apply conj; [exact Hdial|].
    apply conj; [apply prefix_nil|]. apply conj; [apply prefix_nil|].
    apply conj; [constructor|].
    repeat (apply conj; [solve [auto | congruence]|]).
    apply conj; [intros ? [= <-]; eauto|].
    apply conj; [intros e0 _ H; destruct (Hnf e0 H) | congruence].
  - (* no member to go through *)
    exists (Return (Some (wrapError "failed getting etcd client: " err), c)),
      [], [], [], [], [], [].
    simpl. rewrite app_nil_r.
    apply conj; [reflexivity|]. apply conj; [constructor|].
    apply conj; [apply prefix_nil|]. apply conj; [apply prefix_nil|].
    apply conj; [constructor|].
    repeat (apply conj; [solve [auto | congruence]|]).
    apply conj.
    + intros e1 _ H. apply conj; [reflexivity|]. eexists. apply conj; [reflexivity|].
      rewrite Hf in H. injection H as <-. auto.
    + intros _ _ _ [x Hx]. unfold firstMember_ok in Hx. now rewrite Hf in Hx.
Qed.

Lemma firstMember_ok_nonempty (seed : list nat) (c : cluster) :
  members c <> ∅ -> is_Some (firstMember_ok seed c).
Proof.
  intros Hne. unfold firstMember_ok, firstMember.
  destruct (gomap.range seed (members c)) as [|[i v] l] eqn:E.
  - exfalso. apply Hne. apply map_to_list_empty_iff.
    apply Permutation_nil_r. rewrite <- E. symmetry. apply range_Permutation.
  - assert (H : (i, v) ∈ gomap.range seed (members c)) by (rewrite E; left).
    apply elem_of_range in H. rewrite H. eauto.
Qed.

Lemma gate_false (c : cluster) :
  gate c = false <->
  PreviousState (containers c) = ∅ \/ DesiredState (containers c) = ∅.
Proof.
  unfold gate. rewrite andb_false_iff, !negb_false_iff, !Nat.eqb_eq.
  now rewrite !map_size_empty_iff.
Qed.

Lemma constant_phase_sorted (n : nat) (l : list event) :
  Forall (fun e => phase e = n) l -> StronglySorted inPhaseOrder l.
Proof.
  induction 1 as [|e l He Hl IH]; constructor; [exact IH|].
  eapply Forall_impl; [exact Hl|]. unfold inPhaseOrder. simpl. intros; lia.
Qed.

Lemma phase_app_sorted (n : nat) (l1 l2 : list event) :
  Forall (fun e => phase e <= n) l1 -> Forall (fun e => n <= phase e) l2 ->
  StronglySorted inPhaseOrder l1 -> StronglySorted inPhaseOrder l2 ->
  StronglySorted inPhaseOrder (l1 ++ l2).
Proof.
  intros H1 H2 S1 S2. apply StronglySorted_app_2; [|assumption..].
  intros x1 x2 Hx1 Hx2. rewrite Forall_forall in H1, H2.
  specialize (H1 x1 Hx1). specialize (H2 x2 Hx2). unfold inPhaseOrder. lia.
Qed.

Lemma Deploy_events_sorted (dial closing : list event) (removed : list string)
    (added : list member) (ops : list lifecycle) :
  Forall (fun e => phase e = 0) dial ->
  closing = [] \/ closing = [Close] ->
  StronglySorted inPhaseOrder
    (dial ++ map MemberRemove removed ++ map MemberAdd added
     ++ map ContainerOp ops ++ closing).
Proof.
  intros Hd Hc.
  assert (H1 : Forall (fun e => phase e = 1) (map MemberRemove removed))
    by (induction removed; simpl; constructor; auto).
  assert (H2 : Forall (fun e => phase e = 2) (map MemberAdd added))
    by (induction added; simpl; constructor; auto).
  assert (H3 : Forall (fun e => phase e = 3) (map ContainerOp ops))
    by (induction ops; simpl; constructor; auto).
  assert (H4 : Forall (fun e => phase e = 4) closing)
    by (destruct Hc as [-> | ->]; repeat constructor).
  assert (W : forall (P Q : event -> Prop) l,
             (forall e, P e -> Q e) -> Forall P l -> Forall Q l)
    by (intros P Q l HPQ HP; eapply Forall_impl; eauto).
  apply (phase_app_sorted 0);
    [eapply W; [|exact Hd]; simpl; intros; lia
    |rewrite !Forall_app; repeat split;
       (eapply W; [|eassumption]); simpl; intros; lia
    |now apply constant_phase_sorted with 0|].
  apply (phase_app_sorted 1);
    [eapply W; [|exact H1]; simpl; intros; lia
    |rewrite !Forall_app; repeat split;
       (eapply W; [|eassumption]); simpl; intros; lia
    |now apply constant_phase_sorted with 1|].
  apply (phase_app_sorted 2);
    [eapply W; [|exact H2]; simpl; intros; lia
    |rewrite !Forall_app; repeat split;
       (eapply W; [|eassumption]); simpl; intros; lia
    |now apply constant_phase_sorted with 2|].
  apply (phase_app_sorted 3);
    [eapply W; [|exact H3]; simpl; intros; lia
    |eapply W; [|exact H4]; simpl; intros; lia
    |now apply constant_phase_sorted with 3
    |now apply constant_phase_sorted with 4].
Qed.

Lemma no_container_op (dial closing : list event) (removed : list string)
    (added : list member) :
  Forall (fun e => phase e = 0) dial ->
  closing = [] \/ closing = [Close] ->
  Forall (fun e => isContainerOp e = false)
    (dial ++ map MemberRemove removed ++ map MemberAdd added
     ++ map ContainerOp [] ++ closing).
Proof.
  intros Hd Hc. rewrite !Forall_app. repeat split.
  - eapply Forall_impl; [exact Hd|]. intros [] H; simpl in *; congruence.
  - induction removed; simpl; constructor; auto.
  - induction added; simpl; constructor; auto.
  - constructor.
  - destruct Hc as [-> | ->]; repeat constructor.
Qed.

(** C1.  [Deploy] leaves a list of events behind.  When the previous state or
    the desired state is empty, no membership RPC is among them.  When one of
    the events is answered with an error (the transport, the dial, a
    [MemberRemove] or a [MemberAdd]), [Deploy] returns an error that wraps the
    first such error, with the cluster as it was, and no container operation
    is among the events: the engine was not called.  The same holds when the
    states are not empty and there is no member to build the client from. *)
Theorem Deploy_etcd_errors (env : Env) (c : cluster) (w : World) :
  exists r evs,
    Deploy env c w = (r, w ++ evs) /\
    (PreviousState (containers c) = ∅ \/ DesiredState (containers c) = ∅ ->
     Forall (fun e => isMembershipRPC e = false) evs) /\
    (forall ee, firstFailure env w evs = Some ee ->
       (exists err, r = Return (Some err, c) /\ Is err ee) /\
       Forall (fun e => isContainerOp e = false) evs) /\
    (forall e0,
       PreviousState (containers c) <> ∅ -> DesiredState (containers c) <> ∅ ->
       firstMember (seedFirst env) c = Err e0 ->
       (exists err, r = Return (Some err, c) /\ Is err e0) /\ evs = []).
Proof.
  destruct (Deploy_run env c w)
    as (r & dial & removed & addedKeys & added & ops & closing & HD & Hdial
        & _ & _ & _ & Hc & Hgate & _ & _ & Hfail & Hfirst & _).
  simpl in *. eexists r, _. split; [exact HD|]. split; [|split].
  - intros HE. apply gate_false in HE.
    destruct (Hgate HE) as (-> & -> & -> & ->). simpl. rewrite app_nil_r.
    clear. induction ops; simpl; constructor; auto.
  - intros ee H. destruct (Hfail ee H) as [-> Herr]. split; [exact Herr|].
    now apply no_container_op.
  - intros e0 Hp Hd H.
    assert (G : gate c = true).
    { destruct (gate c) eqn:G; [reflexivity|].
      apply gate_false in G as [G|G]; contradiction. }
    destruct (Hfirst e0 G H) as [-> Herr]. auto.
Qed.

(** C2.  The events of one [Deploy] are, in this order: those of building the
    client, the [MemberRemove] RPCs, the [MemberAdd] RPCs, the container
    operations of the engine, and the closing of the client.  No key is
    removed or added twice; a key removed is a key of the previous state that
    the desired state has not, a key added is a key of the desired state that
    the previous state has not.  When a [MemberAdd] was issued, every key to
    remove had its [MemberRemove]; when the engine performed an operation
    after the membership update, every key to remove had its [MemberRemove]
    and every key to add its [MemberAdd]. *)
Theorem Deploy_membership_order (env : Env) (c : cluster) (w : World) :
  exists r dial removed addedKeys added ops closing,
    let evs :=
      dial ++ map MemberRemove removed ++ map MemberAdd added
      ++ map ContainerOp ops ++ closing in
    Deploy env c w = (r, w ++ evs) /\
    StronglySorted inPhaseOrder evs /\
    Forall (fun e => phase e = 0) dial /\
    (closing = [] \/ closing = [Close]) /\
    NoDup removed /\ (forall k, k ∈ removed -> toRemove c k) /\
    NoDup addedKeys /\ (forall k, k ∈ addedKeys -> toAdd c k) /\
    Forall2 (fun k m => members c !! k = Some m) addedKeys added /\
    (added <> [] -> forall k, toRemove c k -> k ∈ removed) /\
    (ops <> [] ->
     PreviousState (containers c) <> ∅ -> DesiredState (containers c) <> ∅ ->
     (forall k, toRemove c k -> k ∈ removed) /\
     (forall k, toAdd c k -> k ∈ addedKeys)) /\
    (firstFailure env w evs = None -> r <> Panic -> members c <> ∅ ->
     PreviousState (containers c) <> ∅ -> DesiredState (containers c) <> ∅ ->
     (forall k, toRemove c k -> k ∈ removed) /\
     (forall k, toAdd c k -> k ∈ addedKeys)).
Proof.
  destruct (Deploy_run env c w)
    as (r & dial & removed & addedKeys & added & ops & closing & HD & Hdial
        & Hp & Hpa & HF & Hc & _ & Hord & Hops & _ & _ & Hall).
  assert (HG : PreviousState (containers c) <> ∅ ->
               DesiredState (containers c) <> ∅ -> gate c = true).
  { intros Hpe Hde. destruct (gate c) eqn:G; [reflexivity|].
    apply gate_false in G as [G|G]; contradiction. }
  destruct (membersToRemove_spec (seedRemove env) c) as [Hnr Hir].
  destruct (membersToAdd_spec (seedAdd env) c) as [Hna Hia].
  exists r, dial, removed, addedKeys, added, ops, closing. simpl.
  apply conj; [exact HD|].
  apply conj; [now apply Deploy_events_sorted|].
  apply conj; [exact Hdial|]. apply conj; [exact Hc|].
  destruct Hp as [restr Hp]. destruct Hpa as [resta Hpa].
  apply conj; [rewrite Hp in Hnr; now apply NoDup_app in Hnr as [? _]|].
  apply conj.
  { intros k Hk. apply Hir. rewrite Hp, elem_of_app. now left. }
  apply conj; [rewrite Hpa in Hna; now apply NoDup_app in Hna as [? _]|].
  apply conj.
  { intros k Hk. apply Hia. rewrite Hpa, elem_of_app. now left. }
  apply conj; [exact HF|].
  apply conj.
  { intros Ha k Hk. rewrite (Hord Ha). now apply Hir. }
  apply conj.
  { intros Ho Hpe Hde. destruct (Hops Ho (HG Hpe Hde)) as [-> ->].
    split; intros k Hk; [now apply Hir | now apply Hia]. }
  intros Hnone Hnp Hm Hpe Hde. simpl in Hall.
  destruct (Hall Hnone Hnp (HG Hpe Hde)
              (firstMember_ok_nonempty (seedFirst env) c Hm)) as (-> & -> & _).
  split; intros k Hk; [now apply Hir | now apply Hia].
Qed.

End deploy_facts.

(** ** The sample clusters *)

Lemma propagateMember_defaults_witness :
  etcd.Name
    (etcd.propagateMember keepHost [1] sampleCluster "b" (sampleMember "10.0.0.2"))
  = "etcd-b" /\
  etcd.InitialCluster
    (etcd.propagateMember keepHost [1] sampleCluster "b" (sampleMember "10.0.0.2"))
  = "etcd-a=https://10.0.0.1:2380,etcd-b=https://10.0.0.2:2380".
Proof.
  assert (Hk : etcd.Members sampleCluster !! "b" = Some (sampleMember "10.0.0.2"))
    by (vm_compute; reflexivity).
  destruct (propagateMember_defaults keepHost [1] sampleCluster "b"
              (sampleMember "10.0.0.2") (sampleMember "10.0.0.2") Hk)
    as (Hn & Hi & _).
  split; [exact (Hn eq_refl)|].
  rewrite (Hi eq_refl). vm_compute. reflexivity.
Defined.

Example propagateMember_any_order :
  etcd.InitialCluster
    (etcd.propagateMember keepHost [] sampleCluster "a" (sampleMember "10.0.0.1"))
  = etcd.InitialCluster
      (etcd.propagateMember keepHost [1] sampleCluster "a" (sampleMember "10.0.0.1")).
Proof. vm_compute. reflexivity. Qed.

Example Deploy_swap_events :
  snd (etcd.Deploy quietEnv swapCluster [])
  = [etcd.ForwardEndpoints (sampleValidated "m0" "10.0.0.10")
       ["10.0.0.10:2379"; "10.0.0.11:2379"];
     etcd.GetEtcdClient (sampleValidated "m0" "10.0.0.10")
       ["10.0.0.10:2379"; "10.0.0.11:2379"];
     etcd.MemberRemove "m2";
     etcd.MemberAdd (sampleValidated "m3" "10.0.0.13");
     etcd.ContainerOp (etcd.OpStop "m2");
     etcd.ContainerOp (etcd.OpDelete "m2");
     etcd.ContainerOp (etcd.OpCreate "m3");
     etcd.ContainerOp (etcd.OpCopy "m3");
     etcd.ContainerOp (etcd.OpStart "m3");
     etcd.Close].
Proof. vm_compute. reflexivity. Qed.

Example Deploy_refused_events :
  etcd.Deploy refusingEnv swapCluster []
  = (Return
       (Some (wrapError "failed to update members before deploying: "
                (wrapError "failed removing member: "
                   (errorString "etcdserver: re-configuration failed"))),
        swapCluster),
     [etcd.ForwardEndpoints (sampleValidated "m0" "10.0.0.10")
        ["10.0.0.10:2379"; "10.0.0.11:2379"];
      etcd.GetEtcdClient (sampleValidated "m0" "10.0.0.10")
        ["10.0.0.10:2379"; "10.0.0.11:2379"];
      etcd.MemberRemove "m2";
      etcd.Close]).
Proof. vm_compute. reflexivity. Qed.

(** * Further properties *)

(** ** Helm releases *)

Section helm_facts.

Import helm.

Variable o : Outside.

Lemma count_app (p : event -> bool) (a b : list event) :
  count p (a ++ b) = count p a + count p b.
Proof. unfold count. now rewrite List.filter_app, length_app. Qed.

Lemma count_replicate (p : event -> bool) (k : nat) (e : event) :
  count p (replicate k e) = if p e then k else 0.
Proof.
  unfold count. induction k as [|k IH]; simpl.
  - now destruct (p e).
  - destruct (p e); simpl; [now rewrite IH | exact IH].
Qed.

Lemma call_ping (w : World) :
  call (pingAnswer o) PingWait w = (pingAnswer o w, w ++ [PingWait]).
Proof. reflexivity. Qed.

(** A closure that makes one call is retried as [retryOnEtcdError] says: the
    same call [k] times in a row, and the answer of the last one. *)
Lemma retry_call (answer : World -> option error) (e : event) (w : World) :
  exists k,
    1 <= k <= 3 /\
    release.retryOnEtcdError (call answer e) w
    = (answer (w ++ replicate (k - 1) e), w ++ replicate k e).
Proof.
  unfold release.retryOnEtcdError, call. simpl.
  destruct (answer w) as [e1|] eqn:E1; simpl.
  2:{ exists 1. simpl. rewrite app_nil_r, E1. split; [lia | reflexivity]. }
  destruct (strings.Contains (Error e1) "etcdserver:"); simpl.
  2:{ exists 1. simpl. rewrite app_nil_r, E1. split; [lia | reflexivity]. }
  destruct (answer (w ++ [e])) as [e2|] eqn:E2; simpl.
  2:{ exists 2. simpl. rewrite E2, <- app_assoc. split; [lia | reflexivity]. }
  destruct (strings.Contains (Error e2) "etcdserver:"); simpl.
  2:{ exists 2. simpl. rewrite E2, <- app_assoc. split; [lia | reflexivity]. }
  exists 3. simpl. split; [lia|]. rewrite <- !app_assoc. simpl.
  destruct (answer (w ++ [e; e])) as [e3|]; [|reflexivity].
  now destruct (strings.Contains (Error e3) "etcdserver:").
Qed.

Lemma loadChart_run (r : release) (w : World) :
  exists evs,
    snd (loadChart o r w) = w ++ evs /\
    (evs = [LocateChart (chart r)] \/
     exists cp, evs = [LocateChart (chart r); LoadChart cp]).
Proof.
  unfold loadChart, call.
  destruct (locateAnswer o w (chart r)) as [cp|err].
  - exists [LocateChart (chart r); LoadChart cp]. split; [|eauto].
    destruct (loadAnswer o _ cp); simpl; now rewrite <- app_assoc.
  - exists [LocateChart (chart r)]. simpl. auto.
Qed.

(** The closure of [Exists] is retried as [retryOnEtcdError] says, and the
    value it left is the one whose text is returned. *)
Lemma retry_history (r : release) (w : World) (v : option historyError) :
  exists k,
    1 <= k <= 3 /\
    let value :=
      historyAnswer o (w ++ replicate (k - 1) (HistoryRun (name r))) (name r) in
    release.retryOnEtcdError (historyRun o r) (w, v)
    = (asError <$> value, (w ++ replicate k (HistoryRun (name r)), value)).
Proof.
  unfold release.retryOnEtcdError, historyRun, call. simpl.
  destruct (historyAnswer o w (name r)) as [e1|] eqn:E1; simpl.
  2:{ exists 1. simpl. rewrite app_nil_r, E1. split; [lia | reflexivity]. }
  destruct (strings.Contains (Error (asError e1)) "etcdserver:"); simpl.
  2:{ exists 1. simpl. rewrite app_nil_r, E1. split; [lia | reflexivity]. }
  destruct (historyAnswer o (w ++ [HistoryRun (name r)]) (name r)) as [e2|] eqn:E2;
    simpl.
  2:{ exists 2. simpl. rewrite E2, <- app_assoc. split; [lia | reflexivity]. }
  destruct (strings.Contains (Error (asError e2)) "etcdserver:"); simpl.
  2:{ exists 2. simpl. rewrite E2, <- app_assoc. split; [lia | reflexivity]. }
  exists 3. simpl. split; [lia|]. rewrite <- !app_assoc. simpl.
  destruct (historyAnswer o (w ++ [HistoryRun (name r); HistoryRun (name r)]) (name r))
    as [e3|]; [|reflexivity].
  simpl. now destruct (strings.Contains (Error (asError e3)) "etcdserver:").
Qed.

(** [Exists] pings once, then asks for the history of the release between one
    and three times, and the last answer decides: no error means that the
    release exists, the value [driver.ErrReleaseNotFound] that it does not,
    and any other error, also one that reads as [driver.ErrReleaseNotFound]
    does, is returned.  When the ping fails, the history is not asked for. *)
Theorem Exists_spec (r : release) (w : World) :
  match pingAnswer o w with
  | Some _ => Exists o r w = (Err timedOut, w ++ [PingWait])
  | None =>
      exists k,
        1 <= k <= 3 /\
        Exists o r w
        = (match historyAnswer o
                   (w ++ PingWait :: replicate (k - 1) (HistoryRun (name r)))
                   (name r) with
           | None => Ok true
           | Some releaseNotFound => Ok false
           | Some (otherError err) =>
               Err (wrapError "checking if release exists: " err)
           end,
           w ++ PingWait :: replicate k (HistoryRun (name r)))
  end.
Proof.
  unfold Exists. rewrite call_ping.
  destruct (pingAnswer o w) as [e|]; [reflexivity|].
  destruct (retry_history r (w ++ [PingWait]) None) as (k & Hk & Hr).
  exists k. split; [exact Hk|]. simpl in Hr. rewrite Hr, <- !app_assoc. simpl.
  clear Hr.
  now destruct (historyAnswer o _ (name r)) as [[|err]|].
Qed.

Lemma Exists_run (r : release) (w : World) :
  exists k,
    k <= 3 /\
    snd (Exists o r w) = w ++ PingWait :: replicate k (HistoryRun (name r)).
Proof.
  unfold Exists. rewrite call_ping.
  destruct (pingAnswer o w) as [e|].
  - exists 0. split; [lia|]. reflexivity.
  - destruct (retry_history r (w ++ [PingWait]) None) as (k & Hk & Hr).
    exists k. split; [lia|]. simpl in Hr. rewrite Hr, <- !app_assoc. simpl.
    clear Hr.
    now destruct (historyAnswer o _ (name r)) as [[|err]|].
Qed.

(** What [Install] and [Upgrade] leave behind: the ping, the events of the
    chart, and up to three runs; success comes with a run answered without
    error. *)
Lemma Install_run (r : release) (w : World) :
  exists chartEvents cp k,
    k <= 3 /\
    count isInstallRun chartEvents = 0 /\ count isUpgradeRun chartEvents = 0 /\
    count isHistoryRun chartEvents = 0 /\ count isUninstallRun chartEvents = 0 /\
    snd (Install o r w)
    = w ++ PingWait :: chartEvents ++ replicate k (InstallRun (name r) cp) /\
    (fst (Install o r w) = None ->
     1 <= k /\
     installAnswer o
       (w ++ PingWait :: chartEvents ++ replicate (k - 1) (InstallRun (name r) cp))
       (name r) cp = None) /\
    (1 <= k ->
     pingAnswer o w = None /\ fst (loadChart o r (w ++ [PingWait])) = Ok cp).
Proof.
  unfold Install. rewrite call_ping.
  destruct (pingAnswer o w) as [e|].
  { exists [], EmptyString, 0. simpl. repeat split; try lia; discriminate. }
  destruct (loadChart_run r (w ++ [PingWait])) as (evs & Hevs & Hshape).
  assert (Hc : forall p, (p = isInstallRun \/ p = isUpgradeRun \/ p = isHistoryRun
                         \/ p = isUninstallRun) -> count p evs = 0).
  { intros p Hp.
    destruct Hshape as [-> | [cp ->]];
      destruct Hp as [-> | [-> | [-> | ->]]]; reflexivity. }
  destruct (loadChart o r (w ++ [PingWait])) as [[cp|err] w1] eqn:El;
    simpl in Hevs; subst w1.
  - destruct (retry_call (fun w => installAnswer o w (name r) cp)
                (InstallRun (name r) cp) ((w ++ [PingWait]) ++ evs))
      as (k & Hk & Hr).
    rewrite Hr. exists evs, cp, k.
    split; [lia|]. repeat (split; [apply Hc; tauto|]).
    rewrite <- !app_assoc. simpl. clear Hr.
    destruct (installAnswer o _ (name r) cp) as [err|] eqn:E; simpl.
    + split; [reflexivity|]. split; [discriminate | auto].
    + split; [reflexivity|]. split; [|auto]. intros _. split; [lia | reflexivity].
  - exists evs, EmptyString, 0. split; [lia|].
    repeat (split; [apply Hc; tauto|]). simpl.
    rewrite <- !app_assoc, app_nil_r. simpl.
    split; [reflexivity|]. split; [discriminate | lia].
Qed.

Lemma Upgrade_run (r : release) (w : World) :
  exists chartEvents cp k,
    k <= 3 /\
    count isInstallRun chartEvents = 0 /\ count isUpgradeRun chartEvents = 0 /\
    count isHistoryRun chartEvents = 0 /\ count isUninstallRun chartEvents = 0 /\
    snd (Upgrade o r w)
    = w ++ PingWait :: chartEvents ++ replicate k (UpgradeRun (name r) cp) /\
    (fst (Upgrade o r w) = None ->
     1 <= k /\
     upgradeAnswer o
       (w ++ PingWait :: chartEvents ++ replicate (k - 1) (UpgradeRun (name r) cp))
       (name r) cp = None) /\
    (1 <= k ->
     pingAnswer o w = None /\ fst (loadChart o r (w ++ [PingWait])) = Ok cp).
Proof.
  unfold Upgrade. rewrite call_ping.
  destruct (pingAnswer o w) as [e|].
  { exists [], EmptyString, 0. simpl. repeat split; try lia; discriminate. }
  destruct (loadChart_run r (w ++ [PingWait])) as (evs & Hevs & Hshape).
  assert (Hc : forall p, (p = isInstallRun \/ p = isUpgradeRun \/ p = isHistoryRun
                         \/ p = isUninstallRun) -> count p evs = 0).
  { intros p Hp.
    destruct Hshape as [-> | [cp ->]];
      destruct Hp as [-> | [-> | [-> | ->]]]; reflexivity. }
  destruct (loadChart o r (w ++ [PingWait])) as [[cp|err] w1] eqn:El;
    simpl in Hevs; subst w1.
  - destruct (retry_call (fun w => upgradeAnswer o w (name r) cp)
                (UpgradeRun (name r) cp) ((w ++ [PingWait]) ++ evs))
      as (k & Hk & Hr).
    rewrite Hr. exists evs, cp, k.
    split; [lia|]. repeat (split; [apply Hc; tauto|]).
    rewrite <- !app_assoc. simpl. clear Hr.
    destruct (upgradeAnswer o _ (name r) cp) as [err|] eqn:E; simpl.
    + split; [reflexivity|]. split; [discriminate | auto].
    + split; [reflexivity|]. split; [|auto]. intros _. split; [lia | reflexivity].
  - exists evs, EmptyString, 0. split; [lia|].
    repeat (split; [apply Hc; tauto|]). simpl.
    rewrite <- !app_assoc, app_nil_r. simpl.
    split; [reflexivity|]. split; [discriminate | lia].
Qed.

(** [Install] runs the install action at most three times, and only after the
    ping was answered and the chart was located and loaded; it never runs the
    upgrade action.  It returns [nil] only when its last event is an install
    run that was answered without error. *)
Theorem Install_runs (r : release) (w : World) :
  exists evs,
    snd (Install o r w) = w ++ evs /\
    count isInstallRun evs <= 3 /\
    count isUpgradeRun evs = 0 /\
    (1 <= count isInstallRun evs ->
     pingAnswer o w = None /\
     exists cp, fst (loadChart o r (w ++ [PingWait])) = Ok cp) /\
    (fst (Install o r w) = None ->
     exists before cp,
       evs = before ++ [InstallRun (name r) cp] /\
       installAnswer o (w ++ before) (name r) cp = None).
Proof.
  destruct (Install_run r w)
    as (ch & cp & k & Hk & Hi & Hu & _ & _ & Hs & Hok & Hrun).
  exists (PingWait :: ch ++ replicate k (InstallRun (name r) cp)).
  split; [exact Hs|].
  change (PingWait :: ch ++ replicate k (InstallRun (name r) cp))
    with ([PingWait] ++ ch ++ replicate k (InstallRun (name r) cp)).
  rewrite !count_app, !count_replicate, Hi, Hu. simpl.
  split; [lia|]. split; [reflexivity|]. split.
  - intros H. destruct (Hrun H) as [Hp Hl]. eauto.
  - intros H. destruct (Hok H) as [Hk1 Ha].
    exists (PingWait :: ch ++ replicate (k - 1) (InstallRun (name r) cp)), cp.
    split; [|exact Ha].
    destruct k as [|k]; [lia|]. simpl. rewrite Nat.sub_0_r.
    rewrite <- app_assoc. do 2 f_equal.
    change (InstallRun (name r) cp :: replicate k (InstallRun (name r) cp))
      with (replicate (S k) (InstallRun (name r) cp)).
    now rewrite replicate_S_end.
Qed.

(** [InstallOrUpgrade] never runs both the install and the upgrade action: it
    runs the upgrade action only when [Exists] found the release, the install
    action only when [Exists] did not find it, and neither when [Exists]
    failed.  Each action runs at most three times, and the history is asked
    for at most three times. *)
Theorem InstallOrUpgrade_exclusive (r : release) (w : World) :
  exists evs,
    snd (InstallOrUpgrade o r w) = w ++ evs /\
    count isInstallRun evs <= 3 /\
    count isUpgradeRun evs <= 3 /\
    count isHistoryRun evs <= 3 /\
    (count isInstallRun evs = 0 \/ count isUpgradeRun evs = 0) /\
    (1 <= count isInstallRun evs -> fst (Exists o r w) = Ok false) /\
    (1 <= count isUpgradeRun evs -> fst (Exists o r w) = Ok true).
Proof.
  unfold InstallOrUpgrade.
  destruct (Exists_run r w) as (kh & Hkh & Hh).
  destruct (Exists o r w) as [[[|]|err] w1] eqn:E; simpl in Hh; subst w1.
  - destruct (Upgrade_run r (w ++ PingWait :: replicate kh (HistoryRun (name r))))
      as (ch & cp & k & Hk & Hi & Hu & Hhi & _ & Hs & _).
    rewrite Hs, <- app_assoc. eexists. split; [reflexivity|].
    change (PingWait :: replicate kh (HistoryRun (name r)))
      with ([PingWait] ++ replicate kh (HistoryRun (name r))).
    change (PingWait :: ch ++ replicate k (UpgradeRun (name r) cp))
      with ([PingWait] ++ ch ++ replicate k (UpgradeRun (name r) cp)).
    rewrite !count_app, !count_replicate, Hi, Hu, Hhi. simpl.
    repeat split; try lia; auto.
  - destruct (Install_run r (w ++ PingWait :: replicate kh (HistoryRun (name r))))
      as (ch & cp & k & Hk & Hi & Hu & Hhi & _ & Hs & _).
    rewrite Hs, <- app_assoc. eexists. split; [reflexivity|].
    change (PingWait :: replicate kh (HistoryRun (name r)))
      with ([PingWait] ++ replicate kh (HistoryRun (name r))).
    change (PingWait :: ch ++ replicate k (InstallRun (name r) cp))
      with ([PingWait] ++ ch ++ replicate k (InstallRun (name r) cp)).
    rewrite !count_app, !count_replicate, Hi, Hu, Hhi. simpl.
    repeat split; try lia; auto.
  - simpl. eexists. split; [reflexivity|].
    change (PingWait :: replicate kh (HistoryRun (name r)))
      with ([PingWait] ++ replicate kh (HistoryRun (name r))).
    rewrite !count_app, !count_replicate. simpl.
    repeat split; try lia; auto.
Qed.

(** [Uninstall] runs the uninstall action at most three times, and only when
    [Exists] found the release.  When [Exists] did not find it, [Uninstall]
    returns [nil] and leaves exactly the events of [Exists]: uninstalling a
    release that is gone is no error. *)
Theorem Uninstall_absent (r : release) (w : World) :
  exists evs,
    snd (Uninstall o r w) = w ++ evs /\
    count isUninstallRun evs <= 3 /\
    (1 <= count isUninstallRun evs -> fst (Exists o r w) = Ok true) /\
    (fst (Exists o r w) = Ok false ->
     Uninstall o r w = (None, snd (Exists o r w)) /\
     count isUninstallRun evs = 0).
Proof.
  unfold Uninstall.
  destruct (Exists_run r w) as (kh & Hkh & Hh).
  destruct (Exists o r w) as [[[|]|err] w1] eqn:E; simpl in Hh; subst w1; simpl.
  - destruct (retry_call (fun w => uninstallAnswer o w (name r))
                (UninstallRun (name r))
                (w ++ PingWait :: replicate kh (HistoryRun (name r))))
      as (k & Hk & Hr).
    rewrite Hr.
    exists ((PingWait :: replicate kh (HistoryRun (name r)))
            ++ replicate k (UninstallRun (name r))).
    split.
    { destruct (uninstallAnswer o _ (name r)); simpl; now rewrite <- app_assoc. }
    change (PingWait :: replicate kh (HistoryRun (name r)))
      with ([PingWait] ++ replicate kh (HistoryRun (name r))).
    rewrite !count_app, !count_replicate. simpl.
    repeat split; try lia; discriminate.
  - exists (PingWait :: replicate kh (HistoryRun (name r))).
    split; [reflexivity|].
    change (PingWait :: replicate kh (HistoryRun (name r)))
      with ([PingWait] ++ replicate kh (HistoryRun (name r))).
    rewrite !count_app, !count_replicate. simpl.
    repeat split; try lia.
  - exists (PingWait :: replicate kh (HistoryRun (name r))).
    split; [reflexivity|].
    change (PingWait :: replicate kh (HistoryRun (name r)))
      with ([PingWait] ++ replicate kh (HistoryRun (name r))).
    rewrite !count_app, !count_replicate. simpl.
    repeat split; try lia; discriminate.
Qed.

End helm_facts.

(** ** Containers: the calls of each operation *)

Section container_calls.

Import types container container_outcome.

Variable dockerNew : option docker_config.Config -> result runtime.Runtime.

Lemma New_Ok (c : Container) (nc : container.container) :
  New dockerNew c = Ok nc ->
  exists r,
    dockerNew (Docker (Runtime c)) = Ok r /\
    Container_Validate c = None /\
    nc = {| container_base :=
              {| config := Config c;
                 runtime := Some r;
                 runtimeConfig := Docker (Runtime c) |};
            container_status := Status c |}.
Proof.
  pose proof (New_cases dockerNew c) as HN.
  destruct (Container_Validate c) as [e|]; [rewrite HN; discriminate|].
  destruct (dockerNew (Docker (Runtime c))) as [r|e]; rewrite HN; [|discriminate].
  intros [= <-]. eauto.
Qed.

Lemma ToInstance_Ok_config (c : Container) (ci : containerInstance) :
  Container_ToInstance dockerNew c = Ok ci ->
  exists r s,
    dockerNew (Docker (Runtime c)) = Ok r /\ Container_Validate c = None /\
    Status c = Some s /\ ContainerStatus.ID s <> EmptyString /\
    ci = {| instance_base :=
              {| config := Config c;
                 runtime := Some r;
                 runtimeConfig := Docker (Runtime c) |};
            instance_status := s |}.
Proof.
  unfold Container_ToInstance.
  destruct (New dockerNew c) as [nc|e] eqn:EN; [|discriminate].
  apply New_Ok in EN as (r & Hd & Hv & ->).
  unfold container_FromStatus. simpl.
  destruct (Status c) as [s|]; [|discriminate].
  destruct (String.eqb_spec (ContainerStatus.ID s) EmptyString) as [|Hid];
    [discriminate|].
  intros [= <-]. exists r, s. auto.
Qed.

Lemma updateStatus_run (ci : containerInstance) (r : runtime.Runtime)
    (c : Container) (w : World) :
  runtime (instance_base ci) = Some r ->
  config (instance_base ci) = Config c ->
  containerInstance_updateStatus ci c w
  = (Return (refreshed r c (instanceID ci) w),
     w ++ [runtime.CallStatus (instanceID ci)]).
Proof.
  intros Hr Hc.
  unfold containerInstance_updateStatus, containerInstance_Status, viaRuntime,
    bind, invoke, ret, refreshed, withStatus.
  rewrite Hr, Hc. now destruct (runtime.Status r w (instanceID ci)).
Qed.

Lemma container_Create_run (c : Container) (r : runtime.Runtime) (w : World) :
  let nc :=
    {| container_base :=
         {| config := Config c;
            runtime := Some r;
            runtimeConfig := Docker (Runtime c) |};
       container_status := Status c |} in
  container_Create nc w
  = (Return
       (match runtime.Create r w (Config c) with
        | Ok id =>
            Ok {| instance_base :=
                    {| config := Config c;
                       runtime := Some r;
                       runtimeConfig := Docker (Runtime c) |};
                  instance_status :=
                    ContainerStatus.mk EmptyString id EmptyString EmptyString |}
        | Err e => Err (wrapError "creating container failed: " e)
        end),
     w ++ [runtime.CallCreate (Config c)]).
Proof.
  unfold container_Create, bind, viaRuntime, invoke, ret. simpl.
  now destruct (runtime.Create r w (Config c)).
Qed.

Lemma refreshed_settled (r : runtime.Runtime) (c : Container) (id : string)
    (w w' : World) :
  settled c (Return (refreshed r c id w), w').
Proof.
  unfold settled, refreshed, withStatus.
  destruct (runtime.Status r w id) as [s|e]; eexists _, _, _;
    (split; [reflexivity|]); simpl; auto.
  repeat split. intros H. now destruct H.
Qed.

Lemma failed_settled (c : Container) (e : option error) (w : World) :
  settled c (Return (e, c), w).
Proof. exists e, c, w. auto. Qed.

(** The five operations that may change a container return: none of them
    panics.  Each leaves the configuration and the runtime configuration of
    the container as they were, and the whole container, status included, as
    it was when it returns an error.  [Read], [Copy] and [Stat] return as
    well. *)
Theorem Container_operations_settle (c : Container) (w : World) :
  settled c (Container_Create dockerNew c w) /\
  settled c (Container_Start dockerNew c w) /\
  settled c (Container_Stop dockerNew c w) /\
  settled c (Container_Delete dockerNew c w) /\
  settled c (Container_UpdateStatus dockerNew c w) /\
  (forall srcPath, fst (Container_Read dockerNew c srcPath w) <> Panic) /\
  (forall dstPath content,
     fst (Container_Copy dockerNew c dstPath content w) <> Panic) /\
  (forall path, fst (Container_Stat dockerNew c path w) <> Panic).
Proof.
  assert (HI : forall ci, Container_ToInstance dockerNew c = Ok ci ->
             exists r, runtime (instance_base ci) = Some r /\
                       config (instance_base ci) = Config c).
  { intros ci H. apply ToInstance_Ok_config in H as (r & s & _ & _ & _ & _ & ->).
    eauto. }
  split.
  { unfold Container_Create.
    destruct (New dockerNew c) as [nc|e] eqn:EN; [|apply failed_settled].
    apply New_Ok in EN as (r & _ & _ & ->).
    unfold bind. rewrite container_Create_run.
    destruct (runtime.Create r w (Config c)) as [id|e]; [|apply failed_settled].
    rewrite (updateStatus_run _ r) by reflexivity. apply refreshed_settled. }
  unfold Container_Start, Container_Stop, Container_Delete,
    Container_UpdateStatus, Container_Read, Container_Copy, Container_Stat.
  destruct (Container_ToInstance dockerNew c) as [ci|e] eqn:ET.
  2:{ repeat split; try apply failed_settled; simpl; discriminate. }
  destruct (HI ci eq_refl) as (r & Hr & Hc).
  unfold bind, containerInstance_Start, containerInstance_Stop,
    containerInstance_Delete, containerInstance_Read, containerInstance_Copy,
    containerInstance_Stat, viaRuntime, invoke.
  rewrite Hr. simpl.
  split.
  { destruct (runtime.Start r w (instanceID ci)); [apply failed_settled|].
    rewrite (updateStatus_run _ r) by assumption. apply refreshed_settled. }
  split.
  { destruct (runtime.Stop r w (instanceID ci)); [apply failed_settled|].
    rewrite (updateStatus_run _ r) by assumption. apply refreshed_settled. }
  split.
  { destruct (runtime.Delete r w (instanceID ci)); [apply failed_settled|].
    eexists _, _, _. split; [reflexivity|]. simpl. repeat split.
    intros H. now destruct H. }
  split.
  { rewrite (updateStatus_run _ r) by assumption. apply refreshed_settled. }
  repeat split; discriminate.
Qed.

(** [ToInstance] succeeds exactly on a container that passes [Validate], whose
    runtime configuration yields a runtime, and whose status is there with an
    id; the instance then carries the configuration and the status of the
    container. *)
Theorem Container_ToInstance_iff (c : Container) :
  ((exists ci, Container_ToInstance dockerNew c = Ok ci) <->
   ~ invalid c /\
   (exists r, dockerNew (Docker (Runtime c)) = Ok r) /\
   ~ noInstance c) /\
  (forall ci, Container_ToInstance dockerNew c = Ok ci ->
     config (instance_base ci) = Config c /\
     Status c = Some (instance_status ci)).
Proof.
  split; [split|].
  - intros [ci H]. apply ToInstance_Ok_config in H as (r & s & Hd & Hv & Hs & Hid & _).
    split; [now apply Container_Validate_pass|]. split; [eauto|].
    unfold noInstance. now rewrite Hs.
  - intros (Hv & [r Hd] & Hs). apply Container_Validate_pass in Hv.
    unfold Container_ToInstance. pose proof (New_cases dockerNew c) as HN.
    rewrite Hv, Hd in HN. rewrite HN. unfold container_FromStatus, noInstance in *.
    simpl. destruct (Status c) as [s|]; [|tauto].
    destruct (String.eqb_spec (ContainerStatus.ID s) EmptyString); [tauto|eauto].
  - intros ci H. apply ToInstance_Ok_config in H as (r & s & _ & _ & Hs & _ & ->).
    auto.
Qed.

(** With an instance of id [id]: [UpdateStatus] asks the runtime for the
    status of [id], once.  [Start] asks it to start [id]; when that fails it
    returns the error and does not ask for the status; when it succeeds it
    asks for the status of [id], and an error of that refresh is returned
    although the container was started.  [Stop] does the same with the stop
    call. *)
Theorem Container_Start_Stop_calls (c : Container) (ci : containerInstance)
    (w : World) :
  Container_ToInstance dockerNew c = Ok ci ->
  exists r,
    runtime (instance_base ci) = Some r /\
    let id := instanceID ci in
    Container_UpdateStatus dockerNew c w
    = (Return (refreshed r c id w), w ++ [runtime.CallStatus id]) /\
    Container_Start dockerNew c w
    = match runtime.Start r w id with
      | Some err => (Return (Some err, c), w ++ [runtime.CallStart id])
      | None =>
          (Return (refreshed r c id (w ++ [runtime.CallStart id])),
           w ++ [runtime.CallStart id; runtime.CallStatus id])
      end /\
    Container_Stop dockerNew c w
    = match runtime.Stop r w id with
      | Some err => (Return (Some err, c), w ++ [runtime.CallStop id])
      | None =>
          (Return (refreshed r c id (w ++ [runtime.CallStop id])),
           w ++ [runtime.CallStop id; runtime.CallStatus id])
      end.
Proof.
  intros H. pose proof H as H'.
  apply ToInstance_Ok_config in H' as (r & s & _ & _ & _ & _ & Hci).
  assert (Hr : runtime (instance_base ci) = Some r) by (now subst ci).
  assert (Hc : config (instance_base ci) = Config c) by (now subst ci).
  clear Hci. exists r. split; [exact Hr|]. simpl.
  unfold Container_UpdateStatus, Container_Start, Container_Stop. rewrite H.
  unfold bind, containerInstance_Start, containerInstance_Stop, viaRuntime, invoke.
  rewrite Hr. simpl.
  split; [now apply updateStatus_run|]. split.
  - destruct (runtime.Start r w (instanceID ci)); [reflexivity|].
    rewrite (updateStatus_run _ r) by assumption. now rewrite <- app_assoc.
  - destruct (runtime.Stop r w (instanceID ci)); [reflexivity|].
    rewrite (updateStatus_run _ r) by assumption. now rewrite <- app_assoc.
Qed.

(** [Create] calls the runtime only for a container that [New] accepts.  It
    then asks the runtime to create a container from the configuration; when
    that fails, the error is returned and the status is not asked for; when
    it succeeds, the status of the new id is asked for.  Whatever status the
    container had before plays no part. *)
Theorem Container_Create_calls (c : Container) (w : World) :
  match New dockerNew c with
  | Err e => Container_Create dockerNew c w = (Return (Some e, c), w)
  | Ok nc =>
      exists r,
        runtime (container_base nc) = Some r /\
        Container_Create dockerNew c w
        = match runtime.Create r w (Config c) with
          | Err e =>
              (Return (Some (wrapError "creating container failed: " e), c),
               w ++ [runtime.CallCreate (Config c)])
          | Ok id =>
              (Return (refreshed r c id (w ++ [runtime.CallCreate (Config c)])),
               w ++ [runtime.CallCreate (Config c); runtime.CallStatus id])
          end
  end.
Proof.
  unfold Container_Create.
  destruct (New dockerNew c) as [nc|e] eqn:EN; [|reflexivity].
  apply New_Ok in EN as (r & _ & _ & ->). exists r. split; [reflexivity|].
  unfold bind. rewrite container_Create_run.
  destruct (runtime.Create r w (Config c)) as [id|e]; [|reflexivity].
  rewrite (updateStatus_run _ r) by reflexivity. now rewrite <- app_assoc.
Qed.

(** With an instance of id [id], [Read], [Copy] and [Stat] each make one call
    to the runtime, for [id] and with their arguments, and return its answer
    as it is. *)
Theorem Container_file_calls (c : Container) (ci : containerInstance)
    (w : World) :
  Container_ToInstance dockerNew c = Ok ci ->
  exists r,
    runtime (instance_base ci) = Some r /\
    let id := instanceID ci in
    (forall srcPath,
       Container_Read dockerNew c srcPath w
       = (Return (runtime.Read r w id srcPath), w ++ [runtime.CallRead id srcPath])) /\
    (forall dstPath content,
       Container_Copy dockerNew c dstPath content w
       = (Return (runtime.Copy r w id dstPath content),
          w ++ [runtime.CallCopy id dstPath content])) /\
    (forall path,
       Container_Stat dockerNew c path w
       = (Return (runtime.Stat r w id path), w ++ [runtime.CallStat id path])).
Proof.
  intros H. pose proof H as H'.
  apply ToInstance_Ok_config in H' as (r & s & _ & _ & _ & _ & Hci).
  assert (Hr : runtime (instance_base ci) = Some r) by (now subst ci).
  exists r. split; [exact Hr|]. simpl.
  unfold Container_Read, Container_Copy, Container_Stat. rewrite H.
  unfold containerInstance_Read, containerInstance_Copy, containerInstance_Stat,
    viaRuntime, invoke.
  rewrite Hr. repeat split.
Qed.

(** After a [Delete] that succeeded the container has no status, and a second
    [Delete], like [Start], [Stop] and [UpdateStatus], returns the error of a
    container without status and calls no method of the runtime: [Delete] is
    not idempotent. *)
Theorem Container_Delete_twice (c c' : Container) (w w' : World) :
  Container_Delete dockerNew c w = (Return (None, c'), w') ->
  let gone := errorString "can't create container instance from empty status" in
  Status c' = None /\
  Container_Delete dockerNew c' w' = (Return (Some gone, c'), w') /\
  Container_Start dockerNew c' w' = (Return (Some gone, c'), w') /\
  Container_Stop dockerNew c' w' = (Return (Some gone, c'), w') /\
  Container_UpdateStatus dockerNew c' w' = (Return (Some gone, c'), w').
Proof.
  unfold Container_Delete at 1.
  destruct (Container_ToInstance dockerNew c) as [ci|e] eqn:ET; [|discriminate].
  apply ToInstance_Ok_config in ET as (r & s & Hd & Hv & _ & _ & ->).
  unfold bind, containerInstance_Delete, viaRuntime, invoke. simpl.
  destruct (runtime.Delete r w _); [discriminate|].
  intros [= <- <-]. simpl.
  assert (HT : Container_ToInstance dockerNew
                 {| Config := Config c; Status := None; Runtime := Runtime c |}
               = Err (errorString "can't create container instance from empty status")).
  { unfold Container_ToInstance.
    pose proof (New_cases dockerNew
                  {| Config := Config c; Status := None; Runtime := Runtime c |}) as HN.
    unfold Container_Validate in HN, Hv. simpl in HN. rewrite Hv, Hd in HN.
    now rewrite HN. }
  unfold Container_Delete, Container_Start, Container_Stop, Container_UpdateStatus.
  rewrite HT. repeat split.
Qed.

End container_calls.

Lemma Container_Start_Stop_calls_witness :
  container.Container_Start obligingDocker (fooContainer (Some (fooStatus "abc"))) []
  = (Return (None, fooContainer None),
     [runtime.CallStart "abc"; runtime.CallStatus "abc"]).
Proof.
  destruct (Container_Start_Stop_calls obligingDocker
              (fooContainer (Some (fooStatus "abc"))) _ [] eq_refl)
    as (r & Hr & _ & Hs & _).
  simpl in Hr. injection Hr as <-. exact Hs.
Defined.

Lemma Container_file_calls_witness :
  container.Container_Stat obligingDocker (fooContainer (Some (fooStatus "abc")))
    "/etc/hosts" []
  = (Return (Ok None), [runtime.CallStat "abc" "/etc/hosts"]).
Proof.
  destruct (Container_file_calls obligingDocker
              (fooContainer (Some (fooStatus "abc"))) _ [] eq_refl)
    as (r & Hr & _ & _ & Hs).
  simpl in Hr. injection Hr as <-. exact (Hs "/etc/hosts").
Defined.

Lemma Container_Delete_twice_witness :
  container.Container_Delete obligingDocker (fooContainer None)
    [runtime.CallDelete "abc"]
  = (Return
       (Some (errorString "can't create container instance from empty status"),
        fooContainer None),
     [runtime.CallDelete "abc"]).
Proof.
  destruct (Container_Delete_twice obligingDocker
              (fooContainer (Some (fooStatus "abc"))) (fooContainer None)
              [] [runtime.CallDelete "abc"] eq_refl)
    as (_ & Hd & _).
  exact Hd.
Defined.

(** ** etcd clusters: endpoints, first member, plans *)

Section cluster_more.

Context {sshConfig HostConfiguredContainer : Type}.

Import etcd etcd_reading.

Local Abbreviation Env := (etcd.Env HostConfiguredContainer).
Local Abbreviation cluster := (etcd.cluster sshConfig HostConfiguredContainer).

Lemma foldl_endpoints (P : gmap string HostConfiguredContainer)
    (l : list (string * member)) (acc : list string) :
  foldl
    (fun endpoints '(i, m) =>
       match P !! i with
       | None => endpoints
       | Some _ => endpoints ++ [peerAddress m +:+ ":2379"]
       end) acc l
  = acc ++ flat_map
             (fun e => match P !! e.1 with
                       | None => []
                       | Some _ => [peerAddress e.2 +:+ ":2379"]
                       end) l.
Proof.
  revert acc. induction l as [|[i m] l IH]; intros acc; simpl.
  - now rewrite app_nil_r.
  - rewrite IH. destruct (P !! i); [now rewrite <- app_assoc | reflexivity].
Qed.

Lemma flat_map_Permutation {A B : Type} (f : A -> list B) (l l' : list A) :
  l ≡ₚ l' -> flat_map f l ≡ₚ flat_map f l'.
Proof.
  induction 1 as [|x l l' _ IH|x y l|l l' l'' _ IH1 _ IH2]; simpl.
  - reflexivity.
  - now rewrite IH.
  - rewrite !app_assoc. f_equiv. apply Permutation_app_comm.
  - now rewrite IH1.
Qed.

(** The endpoints [getExistingEndpoints] returns are the client endpoints
    [peerAddress:2379] of exactly those members whose key is also a key of the
    previous state; there is at most one per member, none when the previous
    state is empty, and another order of iteration only permutes them. *)
Theorem getExistingEndpoints_spec (seed : list nat) (c : cluster) :
  (forall e, e ∈ getExistingEndpoints seed c <->
     exists k m, members c !! k = Some m /\
                 is_Some (PreviousState (containers c) !! k) /\
                 e = peerAddress m +:+ ":2379") /\
  length (getExistingEndpoints seed c) <= size (members c) /\
  (forall seed', getExistingEndpoints seed' c ≡ₚ getExistingEndpoints seed c) /\
  (PreviousState (containers c) = ∅ -> getExistingEndpoints seed c = []).
Proof.
  unfold getExistingEndpoints.
  split; [|split; [|split]].
  - intros e. rewrite foldl_endpoints. simpl. rewrite list_elem_of_In, in_flat_map.
    split.
    + intros ([k m] & Hin & He). apply list_elem_of_In, elem_of_range in Hin.
      simpl in He. destruct (PreviousState (containers c) !! k) eqn:E; [|destruct He].
      destruct He as [<-|[]]. exists k, m. eauto.
    + intros (k & m & Hm & [v Hv] & ->). exists (k, m). split.
      * now apply list_elem_of_In, elem_of_range.
      * simpl. rewrite Hv. now left.
  - rewrite foldl_endpoints. simpl.
    rewrite <- (length_map_to_list (members c)), <- (range_Permutation seed).
    induction (gomap.range seed (members c)) as [|[i m] l IH]; simpl; [lia|].
    rewrite length_app. destruct (PreviousState (containers c) !! i); simpl; lia.
  - intros seed'. rewrite !foldl_endpoints. simpl.
    apply flat_map_Permutation. now rewrite !range_Permutation.
  - intros HE. rewrite foldl_endpoints, HE. simpl.
    induction (gomap.range seed (members c)) as [|[i m] l IH]; simpl; [reflexivity|].
    rewrite lookup_empty. exact IH.
Qed.

(** [firstMember] fails exactly when the cluster has no member.  The member it
    returns is one of the members of the cluster, and which one is up to the
    order of iteration: every member, deployed already or not, is returned
    for some order. *)
Theorem firstMember_spec (seed : list nat) (c : cluster) :
  ((exists e, firstMember seed c = Err e) <-> members c = ∅) /\
  (forall m, firstMember seed c = Ok m -> exists k, members c !! k = Some m) /\
  (forall k m, members c !! k = Some m ->
     exists seed', firstMember seed' c = Ok m).
Proof.
  split; [|split].
  - pose proof (firstMember_ok_nonempty seed c) as Hne.
    unfold firstMember_ok in Hne. split.
    + intros [e He]. destruct (decide (members c = ∅)) as [|Hn]; [assumption|].
      apply Hne in Hn. rewrite He in Hn. now destruct Hn.
    + intros HE. unfold firstMember, gomap.range. rewrite HE, map_to_list_empty.
      simpl. eauto.
  - unfold firstMember. intros m.
    destruct (gomap.range seed (members c)) as [|[i v] l]; [discriminate|].
    destruct (members c !! i) as [m'|] eqn:E; [|discriminate].
    intros [= <-]. eauto.
  - intros k m Hm.
    assert (Hin : (k, m) ∈ map_to_list (members c)) by now apply elem_of_map_to_list.
    apply list_elem_of_split in Hin as (l1 & l2 & Hl).
    destruct (shuffle_complete (map_to_list (members c)) ((k, m) :: l1 ++ l2))
      as [seed' Hs].
    { rewrite Hl. apply Permutation_middle. }
    exists seed'. unfold firstMember, gomap.range. rewrite Hs, Hm. reflexivity.
Qed.

Lemma not_elem_nil (l : list string) : (forall k, k ∉ l) -> l = [].
Proof.
  destruct l as [|x l]; [reflexivity|]. intros H. exfalso. apply (H x). left.
Qed.

(** When the desired state has exactly the keys of the previous state, there
    is nothing to remove and nothing to add, and [Deploy] issues no membership
    RPC. *)
Theorem Deploy_same_keys (env : Env) (c : cluster) (w : World) :
  (forall k, is_Some (PreviousState (containers c) !! k) <->
             is_Some (DesiredState (containers c) !! k)) ->
  membersToRemove (seedRemove env) c = [] /\
  membersToAdd (seedAdd env) c = [] /\
  exists r evs,
    Deploy env c w = (r, w ++ evs) /\
    Forall (fun e => isMembershipRPC e = false) evs.
Proof.
  intros Hsame.
  assert (Hr : membersToRemove (seedRemove env) c = []).
  { apply not_elem_nil. intros k Hk.
    apply (membersToRemove_spec (seedRemove env) c) in Hk as [Hp Hd].
    apply Hsame in Hp. rewrite Hd in Hp. now destruct Hp. }
  assert (Ha : membersToAdd (seedAdd env) c = []).
  { apply not_elem_nil. intros k Hk.
    apply (membersToAdd_spec (seedAdd env) c) in Hk as [Hd Hp].
    apply Hsame in Hd. rewrite Hp in Hd. now destruct Hd. }
  split; [exact Hr|]. split; [exact Ha|].
  destruct (Deploy_run env c w)
    as (r & dial & removed & addedKeys & added & ops & closing & HD & Hdial
        & Hp & Hpa & HF & Hc & _).
  rewrite Hr in Hp. rewrite Ha in Hpa.
  apply prefix_nil_inv in Hp as ->. apply prefix_nil_inv in Hpa as ->.
  inversion HF; subst. simpl in HD.
  eexists r, _. split; [exact HD|].
  rewrite !Forall_app. repeat split.
  - eapply Forall_impl; [exact Hdial|]. intros [] H; simpl in *; congruence.
  - clear. induction ops; simpl; constructor; auto.
  - destruct Hc as [-> | ->]; repeat constructor.
Qed.

Lemma addMembers_returns (env : Env) (c : cluster) (cli : etcdClient)
    (keys : list string) (w : World) :
  (forall k, k ∈ keys -> is_Some (members c !! k)) ->
  fst (addMembers env c cli keys w) <> Panic.
Proof.
  revert w. induction keys as [|k rest IH]; intros w Hk; simpl; [discriminate|].
  unfold bind, member_add.
  destruct (Hk k) as [m Hm]; [left|]. rewrite Hm. unfold invoke.
  destruct (addAnswer env w m); simpl; [discriminate|].
  apply IH. intros k' Hk'. apply Hk. now right.
Qed.

(** [Deploy] does not panic when every key to add has its entry among the
    members of the cluster. *)
Theorem Deploy_returns (env : Env) (c : cluster) (w : World) :
  (forall k, toAdd c k -> is_Some (members c !! k)) ->
  fst (Deploy env c w) <> Panic.
Proof.
  intros Hm. rewrite Deploy_unfold.
  destruct (Containers_Deploy_run env c w) as (r0 & ops0 & Hd0).
  destruct (gate c); [|now rewrite Hd0].
  destruct (getClient_run env c w) as (dial & _ & Hcases & _).
  destruct Hcases as [(cli & _ & Hg) | [(ee & err & _ & _ & Hg)
                                      | (e0 & err & _ & _ & _ & Hg)]];
    rewrite Hg; try discriminate.
  assert (Hu : fst (updateMembers env c cli (w ++ dial)) <> Panic).
  { unfold updateMembers, bind.
    destruct (removeMembers_run env cli (membersToRemove (seedRemove env) c)
                (w ++ dial)) as (removed & _ & Hr & _).
    rewrite Hr.
    destruct (firstFailure env (w ++ dial) (map MemberRemove removed)); simpl;
      [discriminate|].
    apply addMembers_returns. intros k Hk. apply Hm.
    now apply (membersToAdd_spec (seedAdd env) c). }
  destruct (updateMembers env c cli (w ++ dial)) as [[[err|]|] w2];
    simpl in Hu; try discriminate; [|now destruct Hu].
  destruct (Containers_Deploy_run env c w2) as (r & ops & Hd).
  now rewrite Hd.
Qed.

(** [Deploy] closes the client it obtained, once and as its last event,
    whether the membership update or the engine succeeded or not; when no
    client was obtained, nothing is closed. *)
Theorem Deploy_closes_client (env : Env) (c : cluster) (w : World) :
  exists r evs,
    Deploy env c w = (r, w ++ evs) /\
    match gate c, fst (getClient env c w) with
    | true, Return (Ok _) =>
        exists before,
          evs = before ++ [Close] /\ Forall (fun e => isClose e = false) before
    | _, _ => Forall (fun e => isClose e = false) evs
    end.
Proof.
  assert (Hd : forall dial, Forall (fun e => phase e = 0) dial ->
                 Forall (fun e => isClose e = false) dial).
  { intros dial H. eapply Forall_impl; [exact H|].
    intros [] He; simpl in *; congruence. }
  assert (Hrm : forall l, Forall (fun e => isClose e = false) (map MemberRemove l))
    by (induction l; simpl; constructor; auto).
  assert (Had : forall l, Forall (fun e => isClose e = false) (map MemberAdd l))
    by (induction l; simpl; constructor; auto).
  assert (Hop : forall l, Forall (fun e => isClose e = false) (map ContainerOp l))
    by (induction l; simpl; constructor; auto).
  rewrite Deploy_unfold. destruct (gate c).
  2:{ destruct (Containers_Deploy_run env c w) as (r & ops & Hr).
      rewrite Hr. eexists _, _. split; [reflexivity|]. apply Hop. }
  destruct (getClient_run env c w) as (dial & Hdial & Hcases & _).
  destruct Hcases as [(cli & _ & Hg) | [(ee & err & _ & _ & Hg)
                                      | (e0 & err & _ & _ & _ & Hg)]];
    rewrite Hg; simpl.
  - destruct (updateMembers_run env c cli (w ++ dial))
      as (removed & addedKeys & added & _ & _ & _ & _ & Hu).
    simpl in Hu.
    assert (Hb : Forall (fun e => isClose e = false)
                   (dial ++ map MemberRemove removed ++ map MemberAdd added)).
    { rewrite !Forall_app. auto. }
    destruct Hu as [(ee & err & _ & _ & Hu) | [(_ & _ & _ & Hu) | (_ & Hu)]];
      rewrite Hu.
    + eexists _, ((dial ++ map MemberRemove removed ++ map MemberAdd added) ++ [Close]).
      split; [now rewrite <- !app_assoc|]. eauto.
    + destruct (Containers_Deploy_run env c
                  ((w ++ dial) ++ map MemberRemove removed ++ map MemberAdd added))
        as (r & ops & Hr).
      rewrite Hr.
      eexists _, (((dial ++ map MemberRemove removed ++ map MemberAdd added)
                   ++ map ContainerOp ops) ++ [Close]).
      split; [now rewrite <- !app_assoc|].
      eexists. split; [reflexivity|]. rewrite Forall_app. auto.
    + eexists _, ((dial ++ map MemberRemove removed ++ map MemberAdd added) ++ [Close]).
      split; [now rewrite <- !app_assoc|]. eauto.
  - eexists _, _. split; [reflexivity|]. auto.
  - eexists _, []. split; [now rewrite app_nil_r|]. constructor.
Qed.

End cluster_more.

Lemma Deploy_same_keys_witness :
  exists r,
    etcd.Deploy quietEnv etcd_reading.steadyCluster []
    = (r,
       [etcd.ForwardEndpoints
          {| etcd.name := "etcd-m0"; etcd.peerAddress := "10.0.0.10" |}
          ["10.0.0.10:2379"; "10.0.0.11:2379"];
        etcd.GetEtcdClient
          {| etcd.name := "etcd-m0"; etcd.peerAddress := "10.0.0.10" |}
          ["10.0.0.10:2379"; "10.0.0.11:2379"]]
       ++ map etcd.ContainerOp swapPlan ++ [etcd.Close]) /\
    etcd.membersToRemove [] etcd_reading.steadyCluster = [].
Proof.
  destruct (Deploy_same_keys quietEnv etcd_reading.steadyCluster [])
    as (Hr & _ & r & evs & HD & _).
  { intros k. reflexivity. }
  exists r. split; [|exact Hr].
  rewrite HD. f_equal. apply (f_equal snd) in HD. vm_compute in HD.
  vm_compute. symmetry. exact HD.
Defined.

Lemma Deploy_returns_witness :
  fst (etcd.Deploy quietEnv swapCluster []) <> Panic.
Proof.
  apply Deploy_returns. intros k [Hd Hp]. simpl in *.
  destruct (decide (k = "m0")) as [->|H0]; [vm_compute in Hp; discriminate|].
  destruct (decide (k = "m1")) as [->|H1]; [vm_compute in Hp; discriminate|].
  destruct (decide (k = "m3")) as [->|H3]; [vm_compute; eauto|].
  exfalso. rewrite !lookup_insert_ne, lookup_singleton_ne in Hd by congruence.
  now destruct Hd.
Defined.

Example Deploy_panics_without_member :
  etcd.Deploy quietEnv etcd_reading.brokenCluster []
  = (Panic,
     [etcd.ForwardEndpoints
        {| etcd.name := "etcd-m0"; etcd.peerAddress := "10.0.0.10" |}
        ["10.0.0.10:2379"];
      etcd.GetEtcdClient
        {| etcd.name := "etcd-m0"; etcd.peerAddress := "10.0.0.10" |}
        ["10.0.0.10:2379"];
      etcd.Close]).
Proof. vm_compute. reflexivity. Qed.

(** ** [propagateMember]: what is kept and what is filled in *)

Section propagateMember_more.

Context {directConfig sshConfig HostConfiguredContainer : Type}.

Local Abbreviation host := (etcd.Host directConfig sshConfig).
Local Abbreviation Cluster :=
  (etcd.Cluster directConfig sshConfig HostConfiguredContainer).

Variable BuildConfig : host -> host -> host.

Lemma peerNames_order_free (seed : list nat) (M : gmap string (etcd.Member host)) :
  strings.Strings ((fun e => etcd.memberName e.1) <$> gomap.range seed M)
  = strings.Strings (etcd_reading.peerNames M).
Proof.
  apply Strings_order_free. unfold etcd_reading.peerNames.
  apply fmap_Permutation, range_Permutation.
Qed.

Lemma clusterEntry_order_free (seed : list nat) (M : gmap string (etcd.Member host)) :
  strings.Strings (etcd.clusterEntry <$> gomap.range seed M)
  = strings.Strings (etcd.initialClusterEntries M).
Proof.
  apply Strings_order_free. unfold etcd.initialClusterEntries.
  apply fmap_Permutation, range_Permutation.
Qed.

(** The order in which the member map is walked does not show in the member
    [propagateMember] returns: two calls on the same cluster, key and member
    give the same member, so what [Validate] checks is what [New] deploys. *)
Theorem propagateMember_order_free (seed seed' : list nat) (c : Cluster)
    (i : string) (m : etcd.Member host) :
  etcd.propagateMember BuildConfig seed c i m
  = etcd.propagateMember BuildConfig seed' c i m.
Proof.
  unfold etcd.propagateMember. rewrite !foldl_appendMember. simpl.
  rewrite !clusterEntry_order_free.
  now rewrite (peerNames_order_free seed), (peerNames_order_free seed').
Qed.

(** [propagateMember] never overwrites a value the member has: a name, an
    image, an initial cluster, a list of allowed peer names or a CA
    certificate that is not empty is kept, the peer address is always kept,
    and a member that is a new cluster stays one. *)
Theorem propagateMember_keeps (seed : list nat) (c : Cluster) (i : string)
    (m : etcd.Member host) :
  let p := etcd.propagateMember BuildConfig seed c i m in
  (etcd.Name m <> EmptyString -> etcd.Name p = etcd.Name m) /\
  (etcd.Image m <> EmptyString -> etcd.Image p = etcd.Image m) /\
  (etcd.InitialCluster m <> EmptyString ->
   etcd.InitialCluster p = etcd.InitialCluster m) /\
  (etcd.PeerCertAllowedCN m <> EmptyString ->
   etcd.PeerCertAllowedCN p = etcd.PeerCertAllowedCN m) /\
  (etcd.CACertificate m <> EmptyString ->
   etcd.CACertificate p = etcd.CACertificate m) /\
  etcd.PeerAddress p = etcd.PeerAddress m /\
  (etcd.NewCluster m = true -> etcd.NewCluster p = true).
Proof.
  unfold etcd.propagateMember. destruct (foldl _ _ _) as [a b]. cbv zeta.
  cbn [etcd.Name etcd.Image etcd.InitialCluster etcd.PeerCertAllowedCN
       etcd.CACertificate etcd.PeerAddress etcd.NewCluster].
  repeat split; try (intros H; now apply PickString_set).
  intros ->. now destruct (size (etcd.State c) =? 0).
Qed.

(** What [propagateMember] fills in for a member that left it empty: the
    image and the CA certificate of the cluster, and as allowed peer names
    the names [etcd-n] of all keys [n] of the member map, sorted and joined by
    commas.  The member becomes a new cluster when the cluster has no state,
    and keeps its flag when the cluster has state. *)
Theorem propagateMember_fills (seed : list nat) (c : Cluster) (i : string)
    (m : etcd.Member host) :
  let p := etcd.propagateMember BuildConfig seed c i m in
  (etcd.Image m = EmptyString -> etcd.Image p = etcd.Cluster_Image c) /\
  (etcd.CACertificate m = EmptyString ->
   etcd.CACertificate p = etcd.Cluster_CACertificate c) /\
  (etcd.PeerCertAllowedCN m = EmptyString ->
   etcd.PeerCertAllowedCN p
   = strings.Join (strings.Strings (etcd_reading.peerNames (etcd.Members c))) ",") /\
  StronglySorted String.le (strings.Strings (etcd_reading.peerNames (etcd.Members c))) /\
  (forall n, "etcd-" +:+ n ∈ strings.Strings (etcd_reading.peerNames (etcd.Members c))
             <-> is_Some (etcd.Members c !! n)) /\
  (etcd.State c = ∅ -> etcd.NewCluster p = true) /\
  (etcd.State c <> ∅ -> etcd.NewCluster p = etcd.NewCluster m).
Proof.
  unfold etcd.propagateMember. rewrite foldl_appendMember. cbv zeta.
  cbn [etcd.Name etcd.Image etcd.InitialCluster etcd.PeerCertAllowedCN
       etcd.CACertificate etcd.PeerAddress etcd.NewCluster app].
  rewrite peerNames_order_free.
  split; [intros H; now apply PickString_default|].
  split; [intros H; now apply PickString_default|].
  split; [intros H; now apply PickString_default|].
  split; [apply Strings_Sorted|].
  split.
  - intros n. rewrite Strings_Permutation. unfold etcd_reading.peerNames.
    rewrite list_elem_of_fmap. split.
    + intros ([n' m'] & He & Hin). apply elem_of_map_to_list in Hin.
      unfold etcd.memberName in He. simpl in He.
      apply (String.app_inj "etcd-") in He. subst n'. eauto.
    + intros [m' Hm]. exists (n, m'). split; [reflexivity|].
      now apply elem_of_map_to_list.
  - split.
    + intros ->. now rewrite map_size_empty.
    + intros H. apply map_size_non_empty_iff in H.
      now destruct (Nat.eqb_spec (size (etcd.State c)) 0).
Qed.

End propagateMember_more.

(** ** The control plane example: [main] *)

Section main_facts.

Import example.

Context {R : Type}.
Variable FromYaml : list Byte.byte -> result R.
Variable resource : Resource R.

Variable disk : os.FileSystem -> string -> list Byte.byte -> ioutil.writeAnswer.

(** What [main] saves of the state document [StateToYaml] gave. *)
Local Abbreviation savedOf state :=
  (if String.eqb (string_of_list_byte state) main.emptyYAML
   then [] else state%list).


(** A file that [readYamlFile] read is not one that cannot be read. *)
Lemma readYamlFile_readable (fs : os.FileSystem) (file : string)
    (c data : list Byte.byte) :
  main.readYamlFile fs file = Ok c ->
  ioutil.store fs file data = <[file := Ok data]> fs.
Proof.
  unfold main.readYamlFile, os.Stat, os.ReadFile, ioutil.store.
  destruct (fs !! file) as [[content|e]|]; simpl; [reflexivity | discriminate |
    reflexivity].
Qed.

(** What [main] saves is never the document of an empty state. *)
Lemma saved_state_not_empty (state : list Byte.byte) :
  string_of_list_byte (savedOf state) <> main.emptyYAML.
Proof.
  destruct (String.eqb_spec (string_of_list_byte state) main.emptyYAML);
    [discriminate | assumption].
Qed.

Lemma main_run (fs : os.FileSystem) :
  match main FromYaml resource disk fs with
  | (Panic, _, _) => True
  | (Return _, fs', _) =>
      exists state, fs' = <["state.yaml" := Ok (savedOf state)]> fs
  end.
Proof.
  unfold main.
  destruct (main.readYamlFile fs "state.yaml") as [s|e] eqn:Es; [|exact I].
  destruct (main.readYamlFile fs "config.yaml") as [config|e]; [|exact I].
  destruct (FromYaml (main.mergedDocument s config)) as [c0|e]; [|exact I].
  destruct (CheckCurrentState resource c0) as [[e|] c1]; [exact I|].
  destruct (Deploy resource c1) as [[e|] c2]; [exact I|].
  destruct (StateToYaml resource c2) as [state|e]; [|exact I].
  destruct (disk fs "state.yaml" (savedOf state)) as [e|n e|]; simpl;
    [exact I | exact I |].
  exists state. apply (readYamlFile_readable fs "state.yaml" s _ Es).
Qed.


(** When [main] returns, reading [state.yaml] back with [readYamlFile] gives
    exactly the bytes [main] saved, which are never the document of an empty
    state: what one run saves is what the next run starts from. *)
Theorem main_state_round_trip (fs fs' : os.FileSystem) (out : list string) :
  main FromYaml resource disk fs = (Return tt, fs', out) ->
  exists saved,
    fs' !! "state.yaml" = Some (Ok saved) /\
    string_of_list_byte saved <> main.emptyYAML /\
    main.readYamlFile fs' "state.yaml" = Ok saved.
Proof.
  intros H. pose proof (main_run fs) as HM. rewrite H in HM.
  destruct HM as (state & ->).
  assert (HL : forall d : list Byte.byte,
             (<["state.yaml" := Ok d]> fs : os.FileSystem) !! "state.yaml"
             = Some (Ok d)) by (intros d; apply lookup_insert_eq).
  eexists. split; [apply HL|].
  split; [apply saved_state_not_empty|].
  unfold main.readYamlFile, os.Stat, os.ReadFile. rewrite HL. simpl.
  pose proof (saved_state_not_empty state) as Hne.
  now destruct (String.eqb_spec
                  (string_of_list_byte (savedOf state)) main.emptyYAML).
Qed.

End main_facts.

Lemma main_state_round_trip_witness :
  main.readYamlFile
    (<["state.yaml" := Ok (list_byte_of_string "state: {}")]> example.configOnly)
    "state.yaml"
  = Ok (list_byte_of_string "state: {}").
Proof.
  destruct (main_state_round_trip example.counterFromYaml example.counter
              example.obligingDisk example.configOnly
              (<["state.yaml" := Ok (list_byte_of_string "state: {}")]>
                 example.configOnly)
              ["Reading state file state.yaml";
               "Reading config file config.yaml";
               "Creating static Kubernetes Control Plane containers";
               "Checking current state of the containers";
               "Deploying container updates";
               "Saving new containers state to state.yaml file";
               "Run complete"])
    as (saved & Hs & _ & Hr).
  { vm_compute. reflexivity. }
  rewrite Hr. f_equal.
  assert (H : (<["state.yaml" := Ok (list_byte_of_string "state: {}")]>
                 example.configOnly : os.FileSystem) !! "state.yaml"
              = Some (Ok (list_byte_of_string "state: {}")))
    by apply lookup_insert_eq.
  rewrite H in Hs. now injection Hs.
Defined.

(** ** [inc] *)

Section inc_facts.

Import e2e.

Local Open Scope Z_scope.

Lemma bigEndian_snoc (l : list Z) (b : Z) :
  bigEndian (l ++ [b]) = bigEndian l * 256 + b.
Proof. unfold bigEndian. now rewrite fold_left_app. Qed.

Lemma length_snoc (l : list Z) (b : Z) : length (l ++ [b]) = S (length l).
Proof. rewrite length_app. simpl. lia. Qed.

Lemma bigEndian_bound (l : list Z) :
  Forall isByte l -> 0 <= bigEndian l < 256 ^ Z.of_nat (length l).
Proof.
  induction l as [|b l IH] using rev_ind; intros H.
  - unfold bigEndian. simpl. lia.
  - apply Forall_app in H as [Hl Hb]. apply Forall_inv in Hb. unfold isByte in Hb.
    specialize (IH Hl). rewrite bigEndian_snoc, length_snoc, Nat2Z.inj_succ.
    rewrite Z.pow_succ_r by lia. lia.
Qed.

Lemma incFrom_app (n : nat) (l t : list Z) :
  (n <= length l)%nat -> incFrom n (l ++ t) = incFrom n l ++ t.
Proof.
  revert l. induction n as [|j IH]; intros l Hn; simpl; [reflexivity|].
  rewrite lookup_app_l by lia.
  destruct (l !! j) as [b|] eqn:E; [|reflexivity].
  rewrite insert_app_l by lia.
  destruct (0 <? incByte b); [reflexivity|].
  apply IH. rewrite length_insert. lia.
Qed.

Lemma inc_snoc (l : list Z) (b : Z) :
  inc (l ++ [b])
  = if 0 <? incByte b then l ++ [incByte b] else inc l ++ [incByte b].
Proof.
  unfold inc. rewrite length_snoc. simpl.
  rewrite list_lookup_middle by reflexivity.
  assert (HI : <[length l := incByte b]> (l ++ [b]) = l ++ [incByte b]).
  { rewrite insert_app_r_alt by lia. now rewrite Nat.sub_diag. }
  rewrite HI. destruct (0 <? incByte b); [reflexivity|].
  now apply incFrom_app.
Qed.

(** [inc] adds one to the address read as a number, most significant byte
    first, and wraps around: the address of all bytes 255 becomes the address
    of all bytes 0.  The number of bytes is kept and every byte stays a
    byte. *)
Theorem inc_spec (ip : list Z) :
  Forall isByte ip ->
  length (inc ip) = length ip /\
  Forall isByte (inc ip) /\
  bigEndian (inc ip) = (bigEndian ip + 1) mod 256 ^ Z.of_nat (length ip).
Proof.
  induction ip as [|b l IH] using rev_ind; intros H.
  - split; [reflexivity|]. split; [constructor | reflexivity].
  - apply Forall_app in H as [Hl Hb]. apply Forall_inv in Hb. unfold isByte in Hb.
    destruct (IH Hl) as (IHlen & IHbytes & IHval).
    pose proof (bigEndian_bound l Hl) as HB.
    assert (Hpos : 0 < 256 ^ Z.of_nat (length l)) by (apply Z.pow_pos_nonneg; lia).
    rewrite inc_snoc, length_snoc, Nat2Z.inj_succ, Z.pow_succ_r by lia.
    rewrite bigEndian_snoc. unfold incByte.
    destruct (Z.eq_dec b 255) as [->|Hne].
    + change ((255 + 1) mod 256) with 0. simpl.
      rewrite length_snoc, bigEndian_snoc, IHval. split; [now rewrite IHlen|].
      split.
      * apply Forall_app. split; [exact IHbytes|]. repeat constructor; lia.
      * replace (bigEndian l * 256 + 255 + 1) with ((bigEndian l + 1) * 256) by lia.
        rewrite (Z.mul_comm 256), Z.mul_mod_distr_r by lia. lia.
    + rewrite Z.mod_small by lia.
      destruct (Z.ltb_spec 0 (b + 1)); [|lia].
      rewrite length_snoc, bigEndian_snoc. split; [reflexivity|]. split.
      * apply Forall_app. split; [exact Hl|]. repeat constructor; lia.
      * rewrite Z.mod_small; nia.
Qed.

End inc_facts.

Lemma inc_spec_witness :
  e2e.inc [192; 168; 50; 255]%Z = [192; 168; 51; 0]%Z /\
  e2e.bigEndian [192; 168; 51; 0]%Z = (e2e.bigEndian [192; 168; 50; 255] + 1)%Z.
Proof.
  assert (H : Forall e2e.isByte [192; 168; 50; 255]%Z)
    by (repeat constructor; unfold e2e.isByte; lia).
  destruct (inc_spec _ H) as (_ & _ & Hv).
  split; [reflexivity|]. exact Hv.
Defined.

Example inc_wraps :
  e2e.inc [255; 255; 255; 255]%Z = [0; 0; 0; 0]%Z.
Proof. reflexivity. Qed.

(** ** [kubeSchedulerUnmarshal] *)

Section kubeScheduler_facts.

Import flexkube.

Context {Common Host Kubeconfig : Type}.
Variable zeroCommon : Common.
Variable zeroHost : Host.
Variable zeroKubeconfig : Kubeconfig.
Variable controlplaneCommonUnmarshal : value -> Common.
Variable hostUnmarshal : value -> Host.
Variable kubeconfigUnmarshal : value -> Kubeconfig.

Local Abbreviation unmarshal :=
  (kubeSchedulerUnmarshal zeroCommon zeroHost zeroKubeconfig
     controlplaneCommonUnmarshal hostUnmarshal kubeconfigUnmarshal).

Local Abbreviation zero :=
  {| KubeScheduler_Common := zeroCommon;
     KubeScheduler_Host := zeroHost;
     KubeScheduler_Kubeconfig := zeroKubeconfig |}.

Lemma singleBlock_cases (j : gmap string value) (key : string) :
  (notSlice j key /\ singleBlock j key = Panic) \/
  (~ notSlice j key /\ singleBlock j key = Return (blockOf j key)).
Proof.
  unfold notSlice, singleBlock, blockOf.
  destruct (j !! key) as [[|s|[|x [|y l]]|m]|]; simpl; tauto.
Qed.

(** [kubeSchedulerUnmarshal] returns the empty struct for [nil], for a value
    that is no map and for an empty map.  For a map with entries it panics
    exactly when one of the keys [common], [host] and [kubeconfig] is there
    with a value that is no slice; otherwise each field is decoded from the
    single element of the slice of its key, and is left empty when the key is
    absent or its slice has no element or more than one. *)
Theorem kubeSchedulerUnmarshal_spec (i : value) :
  match i with
  | VMap j =>
      if Nat.eqb (size j) 0 then unmarshal i = Return zero
      else
        (unmarshal i = Panic <->
         notSlice j "common" \/ notSlice j "host" \/ notSlice j "kubeconfig") /\
        (forall c, unmarshal i = Return c ->
           KubeScheduler_Common c
           = from_option controlplaneCommonUnmarshal zeroCommon (blockOf j "common") /\
           KubeScheduler_Host c
           = from_option hostUnmarshal zeroHost (blockOf j "host") /\
           KubeScheduler_Kubeconfig c
           = from_option kubeconfigUnmarshal zeroKubeconfig (blockOf j "kubeconfig"))
  | _ => unmarshal i = Return zero
  end.
Proof.
  destruct i as [|s|l|j]; try reflexivity.
  unfold kubeSchedulerUnmarshal.
  destruct (Nat.eqb (size j) 0); [reflexivity|].
  destruct (singleBlock_cases j "common") as [[Hc ->] | [Hc ->]].
  { split; [tauto | discriminate]. }
  destruct (singleBlock_cases j "host") as [[Hh ->] | [Hh ->]].
  { split; [tauto | discriminate]. }
  destruct (singleBlock_cases j "kubeconfig") as [[Hk ->] | [Hk ->]].
  { split; [tauto | discriminate]. }
  split.
  - split; [discriminate | tauto].
  - intros c [= <-].
    destruct (blockOf j "common"), (blockOf j "host"), (blockOf j "kubeconfig");
      repeat split.
Qed.

End kubeScheduler_facts.
